(** * Aadhaar analytics pipeline (app.py): embedding and verified properties

    The dashboard script is a straight-line pandas program.  Tables are
    modelled as lists of typed rows, integer columns as int64 values carried
    in [Z] with the wrap-around of numpy written out, dates as calendar
    dates, and float64 columns through an interface [Float64] that has two
    implementations: IEEE binary64 (the kernel's primitive floats), on which
    the pipeline can be run, and exact extended reals, on which the general
    arithmetic facts are proved. *)

From Stdlib Require Import ZArith List String Ascii Bool Lia Sorted Permutation.
From Stdlib Require Import Reals Lra.
From Stdlib Require Import Floats.
Import ListNotations.

Local Open Scope string_scope.
Local Open Scope list_scope.
Local Open Scope Z_scope.

(* ------------------------------------------------------------------ *)
(** ** Calendar dates *)

(** [df["date"].dt.date] : a time-zone-naive calendar date. *)
Record date := mkDate { dt_year : Z; dt_month : Z; dt_day : Z }.

Definition date_compare (a b : date) : comparison :=
  match dt_year a ?= dt_year b with
  | Eq => match dt_month a ?= dt_month b with
          | Eq => dt_day a ?= dt_day b
          | c => c
          end
  | c => c
  end.

Definition date_leb (a b : date) : bool :=
  match date_compare a b with Gt => false | _ => true end.

Definition date_eqb (a b : date) : bool :=
  match date_compare a b with Eq => true | _ => false end.

Definition date_le (a b : date) : Prop := date_leb a b = true.
Definition date_lt (a b : date) : Prop := date_compare a b = Lt.

(** [dt.to_period("M").dt.to_timestamp()] : the first day of the month. *)
Definition month_start (d : date) : date := mkDate (dt_year d) (dt_month d) 1.

(* ------------------------------------------------------------------ *)
(** ** The three event tables *)

Record BiometricEvent := mkBio {
  b_date : date; b_state : string; b_district : string;
  bio_age_5_17 : Z; bio_age_17_ : Z }.

Record EnrolmentEvent := mkEnr {
  e_date : date; e_state : string; e_district : string;
  age_0_5 : Z; age_5_17 : Z; age_18_greater : Z }.

Record DemographicSnapshot := mkDemo {
  d_date : date; d_state : string; d_district : string;
  demo_age_5_17 : Z; demo_age_17_ : Z }.

(** The columns every table shares: ["date"], ["state"], ["district"]. *)
Class Frame (A : Type) := {
  col_date : A -> date;
  col_state : A -> string;
  col_district : A -> string }.

#[export] Instance BiometricFrame : Frame BiometricEvent :=
  {| col_date := b_date; col_state := b_state; col_district := b_district |}.
#[export] Instance EnrolmentFrame : Frame EnrolmentEvent :=
  {| col_date := e_date; col_state := e_state; col_district := e_district |}.
#[export] Instance DemographicFrame : Frame DemographicSnapshot :=
  {| col_date := d_date; col_state := d_state; col_district := d_district |}.

(* ------------------------------------------------------------------ *)
(** ** Filters *)

(** The two sidebar widgets: [date_range] and [state]. *)
Record Filters := mkFilters { date_range : date * date; state : string }.

(** The date mask of [apply_filters]. *)
Definition in_range {A} `{Frame A} (start end_ : date) (r : A) : bool :=
  date_leb start (col_date r) && date_leb (col_date r) end_.

Definition apply_filters {A} `{Frame A} (w : Filters) (df : list A) : list A :=
  let '(start, end_) := date_range w in
  let df := filter (in_range start end_) df in
  if negb (String.eqb (state w) "All")
  then filter (fun r => String.eqb (col_state r) (state w)) df
  else df.

(** Order-preserving sub-table. *)
Inductive Subseq {A : Type} : list A -> list A -> Prop :=
| Subseq_nil : Subseq [] []
| Subseq_skip x l1 l2 : Subseq l1 l2 -> Subseq l1 (x :: l2)
| Subseq_keep x l1 l2 : Subseq l1 l2 -> Subseq (x :: l1) (x :: l2).

(** What the filter stage promises of one table. *)
Definition filter_stage_ok {A} `{Frame A} (w : Filters) (df out : list A) : Prop :=
  Subseq out df /\
  (forall r, In r out ->
     date_le (fst (date_range w)) (col_date r) /\
     date_le (col_date r) (snd (date_range w))) /\
  (state w <> "All" -> forall r, In r out -> col_state r = state w) /\
  (date_lt (snd (date_range w)) (fst (date_range w)) -> out = []).

(* ------------------------------------------------------------------ *)
(** ** int64 columns *)

(** The count columns are int64; pandas sums and differences wrap silently. *)
Definition wrap64 (z : Z) : Z := (z + 2 ^ 63) mod 2 ^ 64 - 2 ^ 63.
Definition add64 (a b : Z) : Z := wrap64 (a + b).
Definition sub64 (a b : Z) : Z := wrap64 (a - b).
Definition sum64 (l : list Z) : Z := fold_left add64 l 0.

(* ------------------------------------------------------------------ *)
(** ** groupby and merge *)

Definition is_eq (c : comparison) : bool :=
  match c with Eq => true | _ => false end.

Definition lex_compare {A B} (ca : A -> A -> comparison) (cb : B -> B -> comparison)
  (x y : A * B) : comparison :=
  match ca (fst x) (fst y) with
  | Eq => cb (snd x) (snd y)
  | c => c
  end.

Section GroupBy.
Context {K : Type} (cmp : K -> K -> comparison).

(** Insertion into a strictly increasing list of keys. *)
Fixpoint insert_key (k : K) (ks : list K) : list K :=
  match ks with
  | [] => [k]
  | k' :: t =>
      match cmp k k' with
      | Lt => k :: ks
      | Eq => ks
      | Gt => k' :: insert_key k t
      end
  end.

(** The distinct keys of a column, ascending ([groupby] sorts its groups). *)
Definition group_keys (ks : list K) : list K := fold_right insert_key [] ks.

(** [df.groupby(key)]: one group per distinct key, in key order; inside a
    group the rows keep the order they have in [df]. *)
Definition groupby {A} (key : A -> K) (df : list A) : list (K * list A) :=
  map (fun k => (k, filter (fun r => is_eq (cmp (key r) k)) df))
      (group_keys (map key df)).
End GroupBy.

(** [left.merge(right, on=...)], the default inner join. *)
Definition merge {A B C} (on : A -> B -> bool) (comb : A -> B -> C)
  (left : list A) (right : list B) : list C :=
  flat_map (fun a => map (comb a) (filter (on a) right)) left.

(* ------------------------------------------------------------------ *)
(** ** District-level aggregation *)

Definition district_key := (string * string)%type.
Definition district_key_compare : district_key -> district_key -> comparison :=
  lex_compare String.compare String.compare.
Definition district_key_eqb (a b : district_key) : bool :=
  is_eq (district_key_compare a b).

Definition key_of {A} `{Frame A} (r : A) : district_key := (col_state r, col_district r).

Record DemoDistrict := mkDemoD {
  dd_key : district_key; dd_demo_age_5_17 : Z; dd_demo_age_17_ : Z }.
Record BioDistrict := mkBioD {
  bd_key : district_key; bd_bio_age_5_17 : Z; bd_bio_age_17_ : Z }.
Record EnrDistrict := mkEnrD {
  ed_key : district_key; ed_age_0_5 : Z; ed_age_5_17 : Z; ed_age_18_greater : Z }.

Definition demo_d (demographic_f : list DemographicSnapshot) : list DemoDistrict :=
  map (fun g => mkDemoD (fst g) (sum64 (map demo_age_5_17 (snd g)))
                                (sum64 (map demo_age_17_ (snd g))))
      (groupby district_key_compare key_of demographic_f).

Definition bio_d (biometric_f : list BiometricEvent) : list BioDistrict :=
  map (fun g => mkBioD (fst g) (sum64 (map bio_age_5_17 (snd g)))
                               (sum64 (map bio_age_17_ (snd g))))
      (groupby district_key_compare key_of biometric_f).

Definition enr_d (enrolment_f : list EnrolmentEvent) : list EnrDistrict :=
  map (fun g => mkEnrD (fst g) (sum64 (map age_0_5 (snd g)))
                               (sum64 (map age_5_17 (snd g)))
                               (sum64 (map age_18_greater (snd g))))
      (groupby district_key_compare key_of enrolment_f).

(** A row of [demo_d.merge(bio_d).merge(enr_d)]. *)
Record Joined := mkJoined {
  j_state : string; j_district : string;
  j_demo_age_5_17 : Z; j_demo_age_17_ : Z;
  j_bio_age_5_17 : Z; j_bio_age_17_ : Z;
  j_age_0_5 : Z; j_age_5_17 : Z; j_age_18_greater : Z }.

Definition merge_districts (demo_d : list DemoDistrict) (bio_d : list BioDistrict)
  (enr_d : list EnrDistrict) : list Joined :=
  merge (fun (db : DemoDistrict * BioDistrict) e => district_key_eqb (dd_key (fst db)) (ed_key e))
        (fun db e =>
           mkJoined (fst (dd_key (fst db))) (snd (dd_key (fst db)))
                    (dd_demo_age_5_17 (fst db)) (dd_demo_age_17_ (fst db))
                    (bd_bio_age_5_17 (snd db)) (bd_bio_age_17_ (snd db))
                    (ed_age_0_5 e) (ed_age_5_17 e) (ed_age_18_greater e))
        (merge (fun d b => district_key_eqb (dd_key d) (bd_key b)) pair demo_d bio_d)
        enr_d.

Definition joined (demographic_f : list DemographicSnapshot)
  (biometric_f : list BiometricEvent) (enrolment_f : list EnrolmentEvent) : list Joined :=
  merge_districts (demo_d demographic_f) (bio_d biometric_f) (enr_d enrolment_f).

(** The joined row with the derived columns ["population"], ["biometrics"],
    ["enrolments"]. *)
Record DistrictAggregate := mkAgg {
  da_row : Joined; population : Z; biometrics : Z; enrolments : Z }.

Definition with_totals (j : Joined) : DistrictAggregate :=
  {| da_row := j;
     population := add64 (j_demo_age_5_17 j) (j_demo_age_17_ j);
     biometrics := add64 (j_bio_age_5_17 j) (j_bio_age_17_ j);
     enrolments := add64 (add64 (j_age_0_5 j) (j_age_5_17 j)) (j_age_18_greater j) |}.

Definition population_floor (r : DistrictAggregate) : bool := 10000 <? population r.

(** [merged] as it stands after line 155. *)
Definition merged (demographic_f : list DemographicSnapshot)
  (biometric_f : list BiometricEvent) (enrolment_f : list EnrolmentEvent)
  : list DistrictAggregate :=
  filter population_floor (map with_totals (joined demographic_f biometric_f enrolment_f)).

(* ------------------------------------------------------------------ *)
(** ** float64 arithmetic *)

(** The operations the script performs on float64 values.  [of_int] is the
    conversion numpy applies when an int64 value enters a true division. *)
Class Float64 (F : Type) := {
  of_int : Z -> F;
  fadd : F -> F -> F;
  fsub : F -> F -> F;
  fmul : F -> F -> F;
  fdiv : F -> F -> F;
  fsqrt : F -> F;
  fltb : F -> F -> bool;
  fleb : F -> F -> bool;
  isnan : F -> bool;
  nan : F }.

(** IEEE binary64, round to nearest even: what numpy computes. *)
Definition float_of_int (z : Z) : float :=
  SF2Prim (binary_normalize prec emax z 0 false).

#[export] Instance Binary64 : Float64 float := {|
  of_int := float_of_int;
  fadd := PrimFloat.add;
  fsub := PrimFloat.sub;
  fmul := PrimFloat.mul;
  fdiv := PrimFloat.div;
  fsqrt := PrimFloat.sqrt;
  fltb := PrimFloat.ltb;
  fleb := PrimFloat.leb;
  isnan := PrimFloat.is_nan;
  nan := PrimFloat.nan |}.

(** Exact arithmetic with the IEEE special values: finite results are not
    rounded and do not overflow, division by zero and the invalid operations
    give infinities and NaN as IEEE 754 prescribes (a zero counts as +0). *)
Inductive xreal : Type := Fin (x : R) | PInf | NInf | NaN.

Local Open Scope R_scope.

Definition Rltb (x y : R) : bool := if Rlt_dec x y then true else false.
Definition Reqb (x y : R) : bool := if Req_dec_T x y then true else false.

Definition xinf (positive : bool) : xreal := if positive then PInf else NInf.

Definition xneg (a : xreal) : xreal :=
  match a with
  | Fin x => Fin (- x)
  | PInf => NInf
  | NInf => PInf
  | NaN => NaN
  end.

Definition xadd (a b : xreal) : xreal :=
  match a, b with
  | NaN, _ | _, NaN => NaN
  | Fin x, Fin y => Fin (x + y)
  | PInf, NInf | NInf, PInf => NaN
  | PInf, _ | _, PInf => PInf
  | NInf, _ | _, NInf => NInf
  end.

Definition xsub (a b : xreal) : xreal := xadd a (xneg b).

Definition xmul (a b : xreal) : xreal :=
  match a, b with
  | NaN, _ | _, NaN => NaN
  | Fin x, Fin y => Fin (x * y)
  | Fin x, PInf | PInf, Fin x => if Reqb x 0 then NaN else xinf (Rltb 0 x)
  | Fin x, NInf | NInf, Fin x => if Reqb x 0 then NaN else xinf (Rltb x 0)
  | PInf, PInf | NInf, NInf => PInf
  | PInf, NInf | NInf, PInf => NInf
  end.

Definition xdiv (a b : xreal) : xreal :=
  match a, b with
  | NaN, _ | _, NaN => NaN
  | Fin x, Fin y =>
      if Reqb y 0
      then if Reqb x 0 then NaN else xinf (Rltb 0 x)
      else Fin (x / y)
  | Fin _, (PInf | NInf) => Fin 0
  | PInf, Fin y => xinf (negb (Rltb y 0))
  | NInf, Fin y => xinf (Rltb y 0)
  | (PInf | NInf), (PInf | NInf) => NaN
  end.

Definition xsqrt (a : xreal) : xreal :=
  match a with
  | Fin x => if Rltb x 0 then NaN else Fin (R_sqrt.sqrt x)
  | PInf => PInf
  | NInf | NaN => NaN
  end.

Definition xltb (a b : xreal) : bool :=
  match a, b with
  | NaN, _ | _, NaN => false
  | Fin x, Fin y => Rltb x y
  | Fin _, PInf | NInf, Fin _ | NInf, PInf => true
  | _, _ => false
  end.

Definition xleb (a b : xreal) : bool :=
  match a, b with
  | NaN, _ | _, NaN => false
  | Fin x, Fin y => negb (Rltb y x)
  | NInf, _ | _, PInf => true
  | _, _ => false
  end.

Definition xisnan (a : xreal) : bool :=
  match a with NaN => true | _ => false end.

Local Close Scope R_scope.

#[export] Instance Exact : Float64 xreal := {|
  of_int := fun z => Fin (IZR z);
  fadd := xadd;
  fsub := xsub;
  fmul := xmul;
  fdiv := xdiv;
  fsqrt := xsqrt;
  fltb := xltb;
  fleb := xleb;
  isnan := xisnan;
  nan := NaN |}.

(* ------------------------------------------------------------------ *)
(** ** Monthly district series (integer part) *)

(** A row of [bio_month]: the filtered biometric row and its ["month"]. *)
Record BioMonth := mkBioMonth { bm_row : BiometricEvent; bm_month : date }.

Definition bio_month (biometric_f : list BiometricEvent) : list BioMonth :=
  map (fun r => mkBioMonth r (month_start (b_date r))) biometric_f.

Record MonthlyRow := mkMonthly {
  m_district : string; m_month : date;
  m_bio_age_5_17 : Z; m_bio_age_17_ : Z;
  biometrics_total : Z }.

Definition month_key := (string * date)%type.
Definition month_key_compare : month_key -> month_key -> comparison :=
  lex_compare String.compare date_compare.

(** [bio_month.groupby(["district", "month"], as_index=False)[bio_cols].sum()]. *)
Record MonthlySums := mkMonthlySums {
  ms_key : month_key; ms_bio_age_5_17 : Z; ms_bio_age_17_ : Z }.

Definition monthly_sums (bio_month : list BioMonth) : list MonthlySums :=
  map (fun g => mkMonthlySums (fst g)
                  (sum64 (map (fun r => bio_age_5_17 (bm_row r)) (snd g)))
                  (sum64 (map (fun r => bio_age_17_ (bm_row r)) (snd g))))
      (groupby month_key_compare (fun r => (b_district (bm_row r), bm_month r)) bio_month).

(** [monthly["biometrics_total"] = monthly[bio_cols].sum(axis=1)]. *)
Definition with_biometrics_total (s : MonthlySums) : MonthlyRow :=
  mkMonthly (fst (ms_key s)) (snd (ms_key s)) (ms_bio_age_5_17 s) (ms_bio_age_17_ s)
            (add64 (ms_bio_age_5_17 s) (ms_bio_age_17_ s)).

(** [monthly] with its ["biometrics_total"] column (lines 211-218). *)
Definition monthly (biometric_f : list BiometricEvent) : list MonthlyRow :=
  map with_biometrics_total (monthly_sums (bio_month biometric_f)).

(** [monthly.groupby("district").agg(first_val=..., last_val=...)]: the
    first and the last total of each group in row order (a group is never
    empty, the default 0 is not reached). *)
Record Trend := mkTrend { t_district : string; first_val : Z; last_val : Z }.

Definition trend_agg (monthly : list MonthlyRow) : list Trend :=
  map (fun g => mkTrend (fst g)
                        (hd 0 (map biometrics_total (snd g)))
                        (last (map biometrics_total (snd g)) 0))
      (groupby String.compare m_district monthly).

(** [trend[trend["first_val"] > 0]]. *)
Definition trend_positive (monthly : list MonthlyRow) : list Trend :=
  filter (fun t => 0 <? first_val t) (trend_agg monthly).

(** [monthly["month"].max()]; [None] stands for NaT on an empty table. *)
Definition date_max (a b : date) : date := if date_leb a b then b else a.
Definition latest_month (monthly : list MonthlyRow) : option date :=
  match map m_month monthly with
  | [] => None
  | m :: ms => Some (fold_left date_max ms m)
  end.

(** The date-aligned table of lines 262-270. *)
Record CorrRow := mkCorr { c_date : date; c_age_18_greater : Z; c_bio_age_17_ : Z }.

Definition corr_df (enrolment_f : list EnrolmentEvent) (biometric_f : list BiometricEvent)
  : list CorrRow :=
  merge (fun (e b : date * Z) => date_eqb (fst e) (fst b))
        (fun e b => mkCorr (fst e) (snd e) (snd b))
        (map (fun g => (fst g, sum64 (map age_18_greater (snd g))))
             (groupby date_compare e_date enrolment_f))
        (map (fun g => (fst g, sum64 (map bio_age_17_ (snd g))))
             (groupby date_compare b_date biometric_f)).

(** [merged.groupby("state", as_index=False)[["population", "biometrics"]].sum()]. *)
Record StateSums := mkStateSums {
  ss_state : string; ss_population : Z; ss_biometrics : Z }.

Definition state_sums (merged : list DistrictAggregate) : list StateSums :=
  map (fun g => mkStateSums (fst g) (sum64 (map population (snd g)))
                                    (sum64 (map biometrics (snd g))))
      (groupby String.compare (fun r => j_state (da_row r)) merged).

(* ------------------------------------------------------------------ *)
(** ** Indicators (float64 part) *)

Section Indicators.
Context {F : Type} `{Float64 F}.

(** Sums run left to right; numpy groups the additions differently, which
    changes the result only where a partial sum is rounded. *)
Definition fsum (l : list F) : F := fold_left fadd l (of_int 0).
Definition fmean (l : list F) : F := fdiv (fsum l) (of_int (Z.of_nat (List.length l))).

(** [sort_values(col, ascending=False)]: the rows whose key is not NaN in
    descending order, then the NaN rows.  Rows with equal keys are kept in
    their order here; pandas leaves that order open, and no statement below
    depends on it. *)
Fixpoint insert_desc {A} (key : A -> F) (x : A) (l : list A) : list A :=
  match l with
  | [] => [x]
  | y :: t => if fltb (key x) (key y) then y :: insert_desc key x t else x :: l
  end.

Definition sort_values_desc {A} (key : A -> F) (df : list A) : list A :=
  fold_right (insert_desc key) [] (filter (fun r => negb (isnan (key r))) df)
  ++ filter (fun r => isnan (key r)) df.

Definition head {A} (n : nat) (df : list A) : list A := firstn n df.

(** *** Insight 1: biometric intensity index *)

Definition national_rate (merged : list DistrictAggregate) : F :=
  fdiv (of_int (sum64 (map biometrics merged)))
       (of_int (sum64 (map population merged))).

Record Hub := mkHub { hub_row : DistrictAggregate; biometric_intensity_index : F }.

Definition with_intensity (merged : list DistrictAggregate) : list Hub :=
  map (fun r => mkHub r (fdiv (fdiv (of_int (biometrics r)) (of_int (population r)))
                              (national_rate merged)))
      merged.

Definition top_districts (merged : list DistrictAggregate) : list Hub :=
  head 10 (sort_values_desc biometric_intensity_index (with_intensity merged)).

(** *** Insight 2: state-level usage *)

Record StateAgg := mkStateAgg {
  sa_state : string; sa_population : Z; sa_biometrics : Z;
  biometric_per_capita : F }.

Definition with_per_capita (r : StateSums) : StateAgg :=
mkStateAgg (ss_state r) (ss_population r) (ss_biometrics r)
(fdiv (of_int (ss_biometrics r)) (of_int (ss_population r))).

(** [state_agg] after [dropna()] (lines 190-195). *)
Definition state_agg (merged : list DistrictAggregate) : list StateAgg :=
filter (fun r => negb (isnan (biometric_per_capita r)))
(map with_per_capita (state_sums merged)).

Definition top_states (merged : list DistrictAggregate) : list StateAgg :=
  head 10 (sort_values_desc biometric_per_capita (state_agg merged)).

(** *** Insight 3: growth-rate ranking *)

Record Growth := mkGrowth { g_row : Trend; growth_rate : F }.

Definition with_growth_rate (t : Trend) : Growth :=
  mkGrowth t (fdiv (of_int (sub64 (last_val t) (first_val t))) (of_int (first_val t))).

Definition trend (monthly : list MonthlyRow) : list Growth :=
  head 10 (sort_values_desc growth_rate (map with_growth_rate (trend_positive monthly))).

(** *** Insight 4: spike alerts *)

(** [scipy.stats.zscore(x, nan_policy="omit")] on an integer series (which
    holds no NaN to omit): the mean, the population standard deviation
    (ddof = 0) and [z = (x - mean) / std]; then scipy overwrites [z] with
    NaN wherever [std <= abs(eps * mean)], its test for a constant series,
    [eps] being the float64 machine epsilon 2^-52. *)
Definition fabs (x : F) : F := if fltb x (of_int 0) then fsub (of_int 0) x else x.

Definition eps : F := fdiv (of_int 1) (of_int (2 ^ 52)).

Definition zscore (a : list Z) : list F :=
  let x := map of_int a in
  let mn := fmean x in
  let std := fsqrt (fmean (map (fun v => fmul (fsub v mn) (fsub v mn)) x)) in
  map (fun v => if fleb std (fabs (fmul eps mn)) then nan else fdiv (fsub v mn) std) x.

Definition same_district (r r' : MonthlyRow) : bool :=
  is_eq (String.compare (m_district r') (m_district r)).

(** [groupby("district")[...].transform(f)]: [f] runs on every group and
    each result goes back to the position of its row. *)
Fixpoint transform_from (f : list Z -> list F) (all seen rest : list MonthlyRow) : list F :=
  match rest with
  | [] => []
  | r :: rest' =>
      nth (List.length (filter (same_district r) seen))
          (f (map biometrics_total (filter (same_district r) all))) nan
      :: transform_from f all (seen ++ [r]) rest'
  end.

Definition transform (f : list Z -> list F) (df : list MonthlyRow) : list F :=
  transform_from f df [] df.

Record MonthlyDistrictSeries := mkSeries { mz_row : MonthlyRow; z_score : F }.

Definition monthly_z (monthly : list MonthlyRow) : list MonthlyDistrictSeries :=
  map (fun p => mkSeries (fst p) (snd p)) (combine monthly (transform zscore monthly)).

Definition is_latest (monthly : list MonthlyRow) (m : date) : bool :=
  match latest_month monthly with
  | Some l => date_eqb m l
  | None => false
  end.

Definition spikes (monthly : list MonthlyRow) : list MonthlyDistrictSeries :=
  filter (fun r => is_latest monthly (m_month (mz_row r)) && fltb (of_int 3) (z_score r))
         (monthly_z monthly).

(** *** Insight 5: lead-indicator correlation *)

Definition clip (x : F) : F :=
  if fltb x (of_int (-1)) then of_int (-1)
  else if fltb (of_int 1) x then of_int 1 else x.

Definition dot (x y : list F) : F := fsum (map (fun p => fmul (fst p) (snd p)) (combine x y)).

(** [np.corrcoef(a, b)[0, 1]], which [Series.corr] returns in pandas 2.x:
    the covariance matrix of the demeaned rows scaled by 1/(n-1), divided by
    the two standard deviations in turn, clipped to [-1, 1].  Releases that
    compute the coefficient by another routine round differently; what
    depends on the routine only through its exact value is stated for
    [computes_pearson] below. *)
Definition corrcoef (a b : list Z) : F :=
  let n := Z.of_nat (List.length a) in
  let xa := map of_int a in
  let xb := map of_int b in
  let da := map (fun v => fsub v (fdiv (fsum xa) (of_int n))) xa in
  let db := map (fun v => fsub v (fdiv (fsum xb) (of_int n))) xb in
  let scale := fdiv (of_int 1) (of_int (n - 1)) in
  let c00 := fmul (dot da da) scale in
  let c01 := fmul (dot da db) scale in
  let c11 := fmul (dot db db) scale in
  clip (fdiv (fdiv c01 (fsqrt c00)) (fsqrt c11)).

Definition lead_corr (enrolment_f : list EnrolmentEvent) (biometric_f : list BiometricEvent) : F :=
  let df := corr_df enrolment_f biometric_f in
  match df with
  | [] => nan
  | _ => corrcoef (map c_age_18_greater df) (map c_bio_age_17_ df)
  end.
End Indicators.

Arguments Hub : clear implicits.
Arguments StateAgg : clear implicits.
Arguments Growth : clear implicits.
Arguments MonthlyDistrictSeries : clear implicits.

(* ------------------------------------------------------------------ *)
(** ** The pipeline on the loaded tables *)

(** What [load_data] returns. *)
Record Sources := mkSources {
  biometric : list BiometricEvent;
  enrolment : list EnrolmentEvent;
  demographic : list DemographicSnapshot }.

Definition biometric_f (w : Filters) (src : Sources) := apply_filters w (biometric src).
Definition enrolment_f (w : Filters) (src : Sources) := apply_filters w (enrolment src).
Definition demographic_f (w : Filters) (src : Sources) := apply_filters w (demographic src).

(** The joined table before and after the population floor. *)
Definition district_join (w : Filters) (src : Sources) : list Joined :=
  joined (demographic_f w src) (biometric_f w src) (enrolment_f w src).

Definition district_aggregate (w : Filters) (src : Sources) : list DistrictAggregate :=
  merged (demographic_f w src) (biometric_f w src) (enrolment_f w src).

(** A (state, district) pair occurs in a table. *)
Definition present {A} `{Frame A} (k : district_key) (t : list A) : Prop :=
  exists r, In r t /\ key_of r = k.

(* ------------------------------------------------------------------ *)
(** ** Notions used in the statements *)

Definition joined_key (j : Joined) : district_key := (j_state j, j_district j).

(** [v] is the total of the earliest (latest) month the district has in the
    monthly series. *)
Definition earliest_total (d : string) (m : list MonthlyRow) (v : Z) : Prop :=
  exists r0, In r0 m /\ m_district r0 = d /\ biometrics_total r0 = v /\
             forall r, In r m -> m_district r = d -> date_le (m_month r0) (m_month r).

Definition latest_total (d : string) (m : list MonthlyRow) (v : Z) : Prop :=
  exists r1, In r1 m /\ m_district r1 = d /\ biometrics_total r1 = v /\
             forall r, In r m -> m_district r = d -> date_le (m_month r) (m_month r1).

(** The number of months a district has in the monthly series. *)
Definition observed_months (d : string) (m : list MonthlyRow) : nat :=
  List.length (filter (fun r => is_eq (String.compare (m_district r) d)) m).

(** The laws a comparison used for group keys obeys. *)
Class CompareLaws {K : Type} (cmp : K -> K -> comparison) : Prop := {
  cmp_eq : forall a b, cmp a b = Eq -> a = b;
  cmp_refl : forall a, cmp a a = Eq;
  cmp_antisym : forall a b, cmp b a = CompOpp (cmp a b);
  cmp_trans : forall a b c, cmp a b = Lt -> cmp b c = Lt -> cmp a c = Lt }.

(** Strict order on keys, and on the rows of the monthly series by
    (district, month). *)
Definition key_lt {K : Type} (cmp : K -> K -> comparison) (a b : K) : Prop :=
  cmp a b = Lt.

Definition month_key_of (r : MonthlyRow) : month_key := (m_district r, m_month r).

Definition row_lt (r r' : MonthlyRow) : Prop :=
  month_key_compare (month_key_of r) (month_key_of r') = Lt.

(** Real sums, for the statements in exact arithmetic. *)
Definition Rsum (l : list R) : R := fold_left Rplus l 0%R.

(** The mean and the population variance [zscore] works with. *)
Definition mean_of (a : list Z) : R :=
  (Rsum (map IZR a) / IZR (Z.of_nat (List.length a)))%R.

Definition variance_of (a : list Z) : R :=
  (Rsum (map (fun z => (IZR z - mean_of a) * (IZR z - mean_of a)) a)
   / IZR (Z.of_nat (List.length a)))%R.

(** The sum of squared deviations from the mean. *)
Definition squared_deviations (a : list Z) : R :=
  Rsum (map (fun z => (IZR z - mean_of a) * (IZR z - mean_of a))%R a).

(** [x] may stand before [y] in a descending ranking: [y] is not strictly
    larger, and a NaN is only followed by NaN. *)
Definition ranks_before (x y : xreal) : Prop :=
  xltb x y = false /\ (xisnan x = true -> xisnan y = true).

Definition desc {A : Type} (key : A -> xreal) (x y : A) : Prop :=
  xltb (key x) (key y) = false.

(* ------------------------------------------------------------------ *)
(** ** Sample inputs *)

Definition year_2025 : Filters := mkFilters (mkDate 2025 1 1, mkDate 2025 12 31) "All".

(** Three districts with populations 50,000 / 20,000 / 5,000 and 1,000
    biometric transactions each. *)
Definition floor_sources : Sources := {|
  biometric := [ mkBio (mkDate 2025 3 1) "S" "High" 400 600;
                 mkBio (mkDate 2025 3 1) "S" "Mid" 400 600;
                 mkBio (mkDate 2025 3 1) "S" "Low" 400 600 ];
  enrolment := [ mkEnr (mkDate 2025 3 1) "S" "High" 1 2 3;
                 mkEnr (mkDate 2025 3 1) "S" "Mid" 1 2 3;
                 mkEnr (mkDate 2025 3 1) "S" "Low" 1 2 3 ];
  demographic := [ mkDemo (mkDate 2025 3 1) "S" "High" 20000 30000;
                   mkDemo (mkDate 2025 3 1) "S" "Mid" 8000 12000;
                   mkDemo (mkDate 2025 3 1) "S" "Low" 2000 3000 ] |}.

(** One district of 20,000 people with no biometric transaction at all. *)
Definition idle_sources : Sources := {|
  biometric := [ mkBio (mkDate 2025 3 1) "S" "Idle" 0 0 ];
  enrolment := [ mkEnr (mkDate 2025 3 1) "S" "Idle" 1 2 3 ];
  demographic := [ mkDemo (mkDate 2025 3 1) "S" "Idle" 8000 12000 ] |}.

(** Monthly totals 0 then 500 for one district, 100 then 200 for another. *)
Definition growth_sources : Sources := {|
  biometric := [ mkBio (mkDate 2025 4 7) "S" "Doubling" 120 80;
                 mkBio (mkDate 2025 2 3) "S" "Dormant" 0 0;
                 mkBio (mkDate 2025 2 9) "S" "Doubling" 40 60;
                 mkBio (mkDate 2025 4 2) "S" "Dormant" 200 300 ];
  enrolment := [];
  demographic := [] |}.

(** A district with the same monthly total, 100, in January and February. *)
Definition steady_sources : Sources := {|
  biometric := [ mkBio (mkDate 2025 1 10) "S" "Steady" 40 60;
                 mkBio (mkDate 2025 2 10) "S" "Steady" 30 70 ];
  enrolment := [];
  demographic := [] |}.

(** The adult enrolment feed, 0 then 2, duplicated as the biometric feed. *)
Definition mirrored_sources : Sources := {|
  biometric := [ mkBio (mkDate 2025 1 10) "S" "D" 5 0;
                 mkBio (mkDate 2025 1 11) "S" "D" 7 2 ];
  enrolment := [ mkEnr (mkDate 2025 1 10) "S" "D" 1 1 0;
                 mkEnr (mkDate 2025 1 11) "S" "D" 3 1 2 ];
  demographic := [] |}.

(** Two states, one of them called "All". *)
Definition named_all_sources : Sources := {|
  biometric := [ mkBio (mkDate 2025 1 10) "All" "X" 1 1;
                 mkBio (mkDate 2025 1 11) "Goa" "Y" 2 2 ];
  enrolment := [];
  demographic := [] |}.

(* ------------------------------------------------------------------ *)
(** ** The script as a program over a store of pandas objects

    A variable holds a reference to a table.  [df[mask]], [groupby().sum()],
    [merge], [copy()], [sort_values()] and [head()] build a new object;
    [df["col"] = ...] changes the object the variable references. *)

Section Store.
Context {F : Type} `{Float64 F}.

Inductive table : Type :=
| TBiometric (rows : list BiometricEvent)
| TEnrolment (rows : list EnrolmentEvent)
| TDemographic (rows : list DemographicSnapshot)
| TDemoDistrict (rows : list DemoDistrict)
| TBioDistrict (rows : list BioDistrict)
| TEnrDistrict (rows : list EnrDistrict)
| TJoined (rows : list Joined)
| TAggregate (rows : list DistrictAggregate)
| THubs (rows : list (Hub F))
| TStateSums (rows : list StateSums)
| TStateAgg (rows : list (StateAgg F))
| TBioMonth (rows : list BioMonth)
| TMonthlySums (rows : list MonthlySums)
| TMonthly (rows : list MonthlyRow)
| TSeries (rows : list (MonthlyDistrictSeries F))
| TTrend (rows : list Trend)
| TGrowth (rows : list (Growth F))
| TCorr (rows : list CorrRow).

Definition ref := nat.
Definition heap := list table.

(** State passing with failure (a dangling reference, a table of another
    shape than the statement expects). *)
Definition M (A : Type) : Type := heap -> option (A * heap).

Definition ret {A} (a : A) : M A := fun h => Some (a, h).

Definition bind {A B} (m : M A) (k : A -> M B) : M B :=
  fun h => match m h with
           | Some (a, h') => k a h'
           | None => None
           end.

Notation "x <- c ;; k" := (bind c (fun x => k))
  (at level 61, c at next level, right associativity).
Notation "c ;;; k" := (bind c (fun _ => k))
  (at level 61, right associativity).

(** A new object. *)
Definition alloc (t : table) : M ref := fun h => Some (List.length h, h ++ [t]).

Definition load (r : ref) : M table :=
  fun h => match nth_error h r with
           | Some t => Some (t, h)
           | None => None
           end.

Fixpoint update (r : ref) (t : table) (h : heap) : heap :=
  match h, r with
  | [], _ => []
  | _ :: h', O => t :: h'
  | x :: h', S r' => x :: update r' t h'
  end.

(** Assignment into the object behind [r]. *)
Definition store (r : ref) (t : table) : M unit :=
  fun h => if (r <? List.length h)%nat then Some (tt, update r t h) else None.

Definition read {A} (shape : table -> option A) (r : ref) : M A :=
  fun h => match nth_error h r with
           | Some t => match shape t with
                       | Some a => Some (a, h)
                       | None => None
                       end
           | None => None
           end.

Definition as_biometric (t : table) := match t with TBiometric r => Some r | _ => None end.
Definition as_enrolment (t : table) := match t with TEnrolment r => Some r | _ => None end.
Definition as_demographic (t : table) := match t with TDemographic r => Some r | _ => None end.
Definition as_demo_d (t : table) := match t with TDemoDistrict r => Some r | _ => None end.
Definition as_bio_d (t : table) := match t with TBioDistrict r => Some r | _ => None end.
Definition as_enr_d (t : table) := match t with TEnrDistrict r => Some r | _ => None end.
Definition as_joined (t : table) := match t with TJoined r => Some r | _ => None end.
Definition as_aggregate (t : table) := match t with TAggregate r => Some r | _ => None end.
Definition as_hubs (t : table) := match t with THubs r => Some r | _ => None end.
Definition as_state_sums (t : table) := match t with TStateSums r => Some r | _ => None end.
Definition as_state_agg (t : table) := match t with TStateAgg r => Some r | _ => None end.
Definition as_bio_month (t : table) := match t with TBioMonth r => Some r | _ => None end.
Definition as_monthly_sums (t : table) := match t with TMonthlySums r => Some r | _ => None end.
Definition as_monthly (t : table) := match t with TMonthly r => Some r | _ => None end.
Definition as_series (t : table) := match t with TSeries r => Some r | _ => None end.
Definition as_trend (t : table) := match t with TTrend r => Some r | _ => None end.
Definition as_growth (t : table) := match t with TGrowth r => Some r | _ => None end.

(** [apply_filters] statement by statement: each boolean indexing is a new
    object, the argument is only read. *)
Definition apply_filters_st {A} `{Frame A} (w : Filters)
  (shape : table -> option (list A)) (wrap : list A -> table) (df : ref) : M ref :=
  rows <- read shape df ;;
  df1 <- alloc (wrap (filter (in_range (fst (date_range w)) (snd (date_range w))) rows)) ;;
  if negb (String.eqb (state w) "All")
  then rows1 <- read shape df1 ;;
       alloc (wrap (filter (fun r => String.eqb (col_state r) (state w)) rows1))
  else ret df1.

(** The object each variable references when the script ends. *)
Record Vars := mkVars {
  v_biometric_f : ref; v_enrolment_f : ref; v_demographic_f : ref;
  v_demo_d : ref; v_bio_d : ref; v_enr_d : ref;
  v_merged : ref; v_top_districts : ref; v_state_agg : ref;
  v_bio_month : ref; v_monthly : ref; v_trend : ref;
  v_spikes : ref; v_corr_df : ref }.

Definition vars_refs (v : Vars) : list ref :=
  [ v_biometric_f v; v_enrolment_f v; v_demographic_f v;
    v_demo_d v; v_bio_d v; v_enr_d v;
    v_merged v; v_top_districts v; v_state_agg v;
    v_bio_month v; v_monthly v; v_trend v; v_spikes v; v_corr_df v ].

(** Lines 66-274 of the script, the presentation calls left out. *)
Definition pipeline (w : Filters) (biometric enrolment demographic : ref) : M Vars :=
  biometric_f <- apply_filters_st w as_biometric TBiometric biometric ;;
  enrolment_f <- apply_filters_st w as_enrolment TEnrolment enrolment ;;
  demographic_f <- apply_filters_st w as_demographic TDemographic demographic ;;
  (* lines 145-149 *)
  d <- read as_demographic demographic_f ;;
  demo_d_ <- alloc (TDemoDistrict (demo_d d)) ;;
  b <- read as_biometric biometric_f ;;
  bio_d_ <- alloc (TBioDistrict (bio_d b)) ;;
  e <- read as_enrolment enrolment_f ;;
  enr_d_ <- alloc (TEnrDistrict (enr_d e)) ;;
  dd <- read as_demo_d demo_d_ ;;
  bd <- read as_bio_d bio_d_ ;;
  ed <- read as_enr_d enr_d_ ;;
  merged0 <- alloc (TJoined (merge_districts dd bd ed)) ;;
  (* lines 151-153: three columns assigned into merged *)
  j <- read as_joined merged0 ;;
  store merged0 (TAggregate (map with_totals j)) ;;;
  (* line 155 *)
  a <- read as_aggregate merged0 ;;
  merged_ <- alloc (TAggregate (filter population_floor a)) ;;
  (* lines 162-169: a column assigned into the filtered merged *)
  a' <- read as_aggregate merged_ ;;
  store merged_ (THubs (with_intensity a')) ;;;
  hs <- read as_hubs merged_ ;;
  top_districts_ <- alloc (THubs (head 10 (sort_values_desc biometric_intensity_index hs))) ;;
  (* lines 190-195 *)
  hs' <- read as_hubs merged_ ;;
  state_agg0 <- alloc (TStateSums (state_sums (map hub_row hs'))) ;;
  ss <- read as_state_sums state_agg0 ;;
  store state_agg0 (TStateAgg (map with_per_capita ss)) ;;;
  sa <- read as_state_agg state_agg0 ;;
  state_agg_ <- alloc (TStateAgg (filter (fun r => negb (isnan (biometric_per_capita r))) sa)) ;;
  (* lines 211-218: a copy of biometric_f gets the month column *)
  bf <- read as_biometric biometric_f ;;
  bio_month_ <- alloc (TBiometric bf) ;;
  bm <- read as_biometric bio_month_ ;;
  store bio_month_ (TBioMonth (bio_month bm)) ;;;
  bm' <- read as_bio_month bio_month_ ;;
  monthly_ <- alloc (TMonthlySums (monthly_sums bm')) ;;
  ms <- read as_monthly_sums monthly_ ;;
  store monthly_ (TMonthly (map with_biometrics_total ms)) ;;;
  (* lines 220-228 *)
  m <- read as_monthly monthly_ ;;
  trend0 <- alloc (TTrend (trend_agg m)) ;;
  t <- read as_trend trend0 ;;
  trend1 <- alloc (TTrend (filter (fun t => 0 <? first_val t) t)) ;;
  t' <- read as_trend trend1 ;;
  store trend1 (TGrowth (map with_growth_rate t')) ;;;
  g <- read as_growth trend1 ;;
  trend_ <- alloc (TGrowth (head 10 (sort_values_desc growth_rate g))) ;;
  (* lines 246-251 *)
  m' <- read as_monthly monthly_ ;;
  store monthly_ (TSeries (monthly_z m')) ;;;
  s <- read as_series monthly_ ;;
  spikes_ <- alloc (TSeries (filter (fun r => is_latest (map mz_row s) (m_month (mz_row r))
                                             && fltb (of_int 3) (z_score r)) s)) ;;
  (* lines 262-270 *)
  ef <- read as_enrolment enrolment_f ;;
  bf' <- read as_biometric biometric_f ;;
  corr_df_ <- alloc (TCorr (corr_df ef bf')) ;;
  ret (mkVars biometric_f enrolment_f demographic_f demo_d_ bio_d_ enr_d_
              merged_ top_districts_ state_agg_ bio_month_ monthly_ trend_
              spikes_ corr_df_).
End Store.

Arguments table : clear implicits.
Arguments heap : clear implicits.

(** The store right after [load_data]: the three source tables. *)
Definition initial_heap (F : Type) (src : Sources) : heap F :=
  [TBiometric (biometric src); TEnrolment (enrolment src); TDemographic (demographic src)].

(** What the store holds when the script has run. *)
Definition final_store {F} `{Float64 F} (w : Filters) (src : Sources)
  (v : Vars) (h : heap F) : Prop :=
  nth_error h (v_biometric_f v) = Some (TBiometric (biometric_f w src)) /\
  nth_error h (v_enrolment_f v) = Some (TEnrolment (enrolment_f w src)) /\
  nth_error h (v_demographic_f v) = Some (TDemographic (demographic_f w src)) /\
  nth_error h (v_demo_d v) = Some (TDemoDistrict (demo_d (demographic_f w src))) /\
  nth_error h (v_bio_d v) = Some (TBioDistrict (bio_d (biometric_f w src))) /\
  nth_error h (v_enr_d v) = Some (TEnrDistrict (enr_d (enrolment_f w src))) /\
  nth_error h (v_merged v) = Some (THubs (with_intensity (district_aggregate w src))) /\
  nth_error h (v_top_districts v) = Some (THubs (top_districts (district_aggregate w src))) /\
  nth_error h (v_state_agg v) = Some (TStateAgg (state_agg (district_aggregate w src))) /\
  nth_error h (v_bio_month v) = Some (TBioMonth (bio_month (biometric_f w src))) /\
  nth_error h (v_monthly v) = Some (TSeries (monthly_z (monthly (biometric_f w src)))) /\
  nth_error h (v_trend v) = Some (TGrowth (trend (monthly (biometric_f w src)))) /\
  nth_error h (v_spikes v) = Some (TSeries (spikes (monthly (biometric_f w src)))) /\
  nth_error h (v_corr_df v)
  = Some (TCorr (corr_df (enrolment_f w src) (biometric_f w src))).

(* ------------------------------------------------------------------ *)
(** ** Sidebar defaults, lifecycle totals and the date-level series *)

Definition date_min (a b : date) : date := if date_leb a b then a else b.

(** [biometric["date"].min().date()] and [.max().date()] (lines 43-44);
    [None] on an empty table. *)
Definition min_date (biometric : list BiometricEvent) : option date :=
  match map b_date biometric with
  | [] => None
  | d :: ds => Some (fold_left date_min ds d)
  end.

Definition max_date (biometric : list BiometricEvent) : option date :=
  match map b_date biometric with
  | [] => None
  | d :: ds => Some (fold_left date_max ds d)
  end.

(** The options of the state selector (line 55):
    [["All"] + sorted(biometric["state"].unique())]. *)
Definition state_options (biometric : list BiometricEvent) : list string :=
  "All" :: group_keys String.compare (map b_state biometric).

(** Lines 75-85: the three scalar totals. *)
Definition total_population (demographic_f : list DemographicSnapshot) : Z :=
  add64 (sum64 (map demo_age_5_17 demographic_f)) (sum64 (map demo_age_17_ demographic_f)).

Definition total_enrolments (enrolment_f : list EnrolmentEvent) : Z :=
  sum64 [ sum64 (map age_0_5 enrolment_f);
          sum64 (map age_5_17 enrolment_f);
          sum64 (map age_18_greater enrolment_f) ].

Definition total_biometrics (biometric_f : list BiometricEvent) : Z :=
  sum64 [ sum64 (map bio_age_5_17 biometric_f);
          sum64 (map bio_age_17_ biometric_f) ].

(** Lines 102-104 and 120-122: sums per date. *)
Record EnrolTs := mkEnrolTs {
  et_date : date; et_age_0_5 : Z; et_age_5_17 : Z; et_age_18_greater : Z }.

Definition enrol_ts (enrolment_f : list EnrolmentEvent) : list EnrolTs :=
  map (fun g => mkEnrolTs (fst g) (sum64 (map age_0_5 (snd g)))
                                  (sum64 (map age_5_17 (snd g)))
                                  (sum64 (map age_18_greater (snd g))))
      (groupby date_compare e_date enrolment_f).

Record BioTs := mkBioTs { bt_date : date; bt_bio_age_5_17 : Z; bt_bio_age_17_ : Z }.

Definition bio_ts (biometric_f : list BiometricEvent) : list BioTs :=
  map (fun g => mkBioTs (fst g) (sum64 (map bio_age_5_17 (snd g)))
                                (sum64 (map bio_age_17_ (snd g))))
      (groupby date_compare b_date biometric_f).

(** Plain integer sum, for statements about wrapped sums. *)
Definition Zsum (l : list Z) : Z := fold_right Z.add 0 l.

(** One district observed in eleven months of 2025: no transaction in the
    first ten, 1,000 in November. *)
Definition surge_sources : Sources := {|
  biometric := map (fun k => mkBio (mkDate 2025 k 15) "S" "Surge" 0 0)
                   [1; 2; 3; 4; 5; 6; 7; 8; 9; 10]
               ++ [ mkBio (mkDate 2025 11 15) "S" "Surge" 400 600 ];
  enrolment := [];
  demographic := [] |}.

(* ------------------------------------------------------------------ *)
(** ** Pearson's coefficient, whatever routine computes it *)

(** [Series.corr] with the routine that computes the coefficient left
    open.  pandas 2.x hands the two columns to [np.corrcoef], which is
    [lead_corr] above; other releases compute the same quantity by another
    float64 routine, with other roundings. *)
Definition lead_corr_by {F} `{Float64 F} (routine : list Z -> list Z -> F)
    (enrolment_f : list EnrolmentEvent) (biometric_f : list BiometricEvent) : F :=
  match corr_df enrolment_f biometric_f with
  | [] => nan
  | df => routine (map c_age_18_greater df) (map c_bio_age_17_ df)
  end.

(** The sum of the products of the paired deviations, and Pearson's r. *)
Definition co_deviations (a b : list Z) : R :=
  Rsum (map (fun p => (IZR (fst p) - mean_of a) * (IZR (snd p) - mean_of b))%R
            (combine a b)).

Definition pearson_r (a b : list Z) : R :=
  (co_deviations a b / R_sqrt.sqrt (squared_deviations a * squared_deviations b))%R.

(** A routine computes Pearson's r: on two series of equal length, neither
    of them constant, it returns that number when run in exact
    arithmetic. *)
Definition computes_pearson (routine : list Z -> list Z -> xreal) : Prop :=
  forall a b, List.length a = List.length b ->
    (0 < squared_deviations a)%R -> (0 < squared_deviations b)%R ->
    routine a b = Fin (pearson_r a b).

(** The adult enrolment feed 2^53, 2^53 + 1 duplicated as the biometric
    feed: two distinct int64 values that become the same float64. *)
Definition saturated_sources : Sources := {|
  biometric := [ mkBio (mkDate 2025 1 10) "S" "D" 0 9007199254740992;
                 mkBio (mkDate 2025 1 11) "S" "D" 0 9007199254740993 ];
  enrolment := [ mkEnr (mkDate 2025 1 10) "S" "D" 0 0 9007199254740992;
                 mkEnr (mkDate 2025 1 11) "S" "D" 0 0 9007199254740993 ];
  demographic := [] |}.

(* ================================================================== *)
(** * Properties *)

(* ------------------------------------------------------------------ *)
(** ** Facts about dates and sub-tables *)

Lemma date_compare_refl a : date_compare a a = Eq.
Proof. unfold date_compare. now rewrite !Z.compare_refl. Qed.

Lemma date_compare_eq a b : date_compare a b = Eq -> a = b.
Proof.
  destruct a as [y m d], b as [y' m' d']; unfold date_compare; simpl.
  destruct (Z.compare_spec y y'); try discriminate.
  destruct (Z.compare_spec m m'); try discriminate.
  destruct (Z.compare_spec d d'); try discriminate.
  now subst.
Qed.

Lemma date_compare_antisym a b : date_compare b a = CompOpp (date_compare a b).
Proof.
  destruct a as [y m d], b as [y' m' d']; unfold date_compare; simpl.
  rewrite (Z.compare_antisym y y'), (Z.compare_antisym m m'), (Z.compare_antisym d d').
  destruct (y ?= y'), (m ?= m'), (d ?= d'); reflexivity.
Qed.

Lemma date_compare_lt a b :
  date_compare a b = Lt <->
  dt_year a < dt_year b \/
  (dt_year a = dt_year b /\
   (dt_month a < dt_month b \/ (dt_month a = dt_month b /\ dt_day a < dt_day b))).
Proof.
  destruct a as [y m d], b as [y' m' d']; unfold date_compare; simpl.
  destruct (Z.compare_spec y y'); [|split; [lia|reflexivity] |split; [discriminate|lia]].
  destruct (Z.compare_spec m m'); [|split; [lia|reflexivity] |split; [discriminate|lia]].
  destruct (Z.compare_spec d d'); split; try discriminate; try lia; reflexivity.
Qed.

Lemma date_compare_trans a b c :
  date_compare a b = Lt -> date_compare b c = Lt -> date_compare a c = Lt.
Proof. rewrite !date_compare_lt. lia. Qed.

Lemma date_leb_trans a b c :
  date_leb a b = true -> date_leb b c = true -> date_leb a c = true.
Proof.
  unfold date_leb. intros Hab Hbc.
  destruct (date_compare a b) eqn:E1; try discriminate;
  destruct (date_compare b c) eqn:E2; try discriminate.
  - apply date_compare_eq in E1; subst. now rewrite E2.
  - apply date_compare_eq in E1; subst. now rewrite E2.
  - apply date_compare_eq in E2; subst. now rewrite E1.
  - now rewrite (date_compare_trans _ _ _ E1 E2).
Qed.

Lemma date_lt_not_le a b : date_lt b a -> date_leb a b = false.
Proof.
  unfold date_lt, date_leb. intros H.
  rewrite (date_compare_antisym b a), H. reflexivity.
Qed.

Lemma date_eqb_eq a b : date_eqb a b = true <-> a = b.
Proof.
  unfold date_eqb. split.
  - destruct (date_compare a b) eqn:E; try discriminate. intros _. now apply date_compare_eq.
  - intros ->. now rewrite date_compare_refl.
Qed.

Lemma Subseq_refl {A} (l : list A) : Subseq l l.
Proof. induction l; constructor; assumption. Qed.

Lemma Subseq_filter {A} (p : A -> bool) (l : list A) : Subseq (filter p l) l.
Proof.
  induction l as [|x l IH]; simpl.
  - constructor.
  - destruct (p x); constructor; assumption.
Qed.

Lemma Subseq_trans {A} (l1 l2 l3 : list A) :
  Subseq l1 l2 -> Subseq l2 l3 -> Subseq l1 l3.
Proof.
  intros H12 H23. revert l1 H12.
  induction H23 as [|x l2 l3 H IH|x l2 l3 H IH]; intros l1 H12.
  - assumption.
  - constructor. now apply IH.
  - inversion H12; subst.
    + apply Subseq_skip. now apply IH.
    + apply Subseq_keep. now apply IH.
Qed.

Lemma filter_none {A} (p : A -> bool) (l : list A) :
  (forall x, In x l -> p x = false) -> filter p l = [].
Proof.
  induction l as [|x l IH]; simpl; intros H; [reflexivity|].
  rewrite (H x (or_introl eq_refl)). apply IH. intros y Hy. apply H. now right.
Qed.

(* ------------------------------------------------------------------ *)
(** ** The filter stage *)

Lemma apply_filters_ok {A} `{Frame A} (w : Filters) (df : list A) :
  filter_stage_ok w df (apply_filters w df).
Proof.
  unfold filter_stage_ok, apply_filters.
  destruct w as [[start end_] st]; simpl.
  set (dated := filter (in_range start end_) df).
  assert (Hdated : forall r, In r dated ->
            date_le start (col_date r) /\ date_le (col_date r) end_).
  { intros r Hr. apply filter_In in Hr. destruct Hr as [_ Hr].
    unfold in_range in Hr. apply andb_true_iff in Hr. exact Hr. }
  assert (Hempty : date_lt end_ start -> dated = []).
  { intros Hlt. apply filter_none. intros r _. unfold in_range.
    destruct (date_leb start (col_date r)) eqn:E1; [|reflexivity].
    destruct (date_leb (col_date r) end_) eqn:E2; [|reflexivity].
    pose proof (date_leb_trans _ _ _ E1 E2) as Hse.
    rewrite (date_lt_not_le _ _ Hlt) in Hse. discriminate. }
  destruct (String.eqb st "All") eqn:Est; simpl.
  - split; [apply Subseq_filter|].
    split; [exact Hdated|].
    split; [|exact Hempty].
    intros Hne. apply String.eqb_eq in Est. contradiction.
  - split; [eapply Subseq_trans; apply Subseq_filter|].
    split; [intros r Hr; apply filter_In in Hr; now apply Hdated|].
    split.
    + intros _ r Hr. apply filter_In in Hr. destruct Hr as [_ Hr].
      now apply String.eqb_eq in Hr.
    + intros Hlt. rewrite (Hempty Hlt). reflexivity.
Qed.

(** C7: for each of the three tables the filter stage returns a sub-table of
    its input whose rows all have their date in [start, end] and, when a
    region other than "All" is selected, that region as state; when
    start > end the three results are empty.  [apply_filters] is a total
    function, so no error is raised. *)
Theorem filter_stage_correct : forall (w : Filters) (src : Sources),
  filter_stage_ok w (biometric src) (biometric_f w src) /\
  filter_stage_ok w (enrolment src) (enrolment_f w src) /\
  filter_stage_ok w (demographic src) (demographic_f w src).
Proof.
  intros w src. unfold biometric_f, enrolment_f, demographic_f.
  split; [|split]; apply apply_filters_ok.
Qed.

(** C10: with "All" selected [apply_filters] is the date mask alone: every
    row inside the interval is returned whatever its state, so when the data
    holds a state called "All" next to others, choosing it does not restrict
    the result to that state. *)
Theorem all_is_the_no_restriction_sentinel :
  forall (A : Type) (fr : Frame A) (rng : date * date) (df : list A),
    apply_filters (mkFilters rng "All") df = filter (in_range (fst rng) (snd rng)) df /\
    (forall r, In r df -> in_range (fst rng) (snd rng) r = true ->
       In r (apply_filters (mkFilters rng "All") df)) /\
    (forall r, In r df -> in_range (fst rng) (snd rng) r = true ->
       col_state r <> "All" ->
       apply_filters (mkFilters rng "All") df <>
       filter (fun r' => String.eqb (col_state r') "All")
              (filter (in_range (fst rng) (snd rng)) df)).
Proof.
  intros A fr [start end_] df.
  assert (E : apply_filters (mkFilters (start, end_) "All") df
              = filter (in_range start end_) df) by reflexivity.
  split; [exact E|]. simpl fst; simpl snd. split.
  - intros r Hin Hr. rewrite E. apply filter_In. now split.
  - intros r Hin Hr Hst Heq. rewrite E in Heq.
    assert (Hr' : In r (filter (in_range start end_) df)) by (apply filter_In; now split).
    rewrite Heq in Hr'. apply filter_In in Hr'. destruct Hr' as [_ Hr'].
    apply String.eqb_eq in Hr'. contradiction.
Qed.

(* ------------------------------------------------------------------ *)
(** ** Orderings used as group keys *)

Lemma ascii_compare_refl (a : ascii) : Ascii.compare a a = Eq.
Proof. unfold Ascii.compare. apply N.compare_refl. Qed.

Lemma string_compare_refl (s : string) : String.compare s s = Eq.
Proof. induction s as [|a s IH]; simpl; [reflexivity|]. now rewrite ascii_compare_refl. Qed.

Lemma string_compare_trans (a b c : string) :
  String.compare a b = Lt -> String.compare b c = Lt -> String.compare a c = Lt.
Proof.
  revert b c; induction a as [|x a IH]; intros [|y b] [|z c]; simpl; try congruence.
  destruct (Ascii.compare x y) eqn:Exy; try discriminate;
    destruct (Ascii.compare y z) eqn:Eyz; try discriminate; intros H1 H2.
  - apply Ascii.compare_eq_iff in Exy, Eyz. subst. rewrite ascii_compare_refl. eauto.
  - apply Ascii.compare_eq_iff in Exy. subst. now rewrite Eyz.
  - apply Ascii.compare_eq_iff in Eyz. subst. now rewrite Exy.
  - assert (E : Ascii.compare x z = Lt).
    { unfold Ascii.compare in *. rewrite N.compare_lt_iff in *. lia. }
    now rewrite E.
Qed.

#[export] Instance string_compare_laws : CompareLaws String.compare.
Proof.
  constructor.
  - apply String.compare_eq_iff.
  - apply string_compare_refl.
  - intros a b. apply String.compare_antisym.
  - apply string_compare_trans.
Qed.

#[export] Instance date_compare_laws : CompareLaws date_compare.
Proof.
  constructor.
  - apply date_compare_eq.
  - apply date_compare_refl.
  - apply date_compare_antisym.
  - apply date_compare_trans.
Qed.

#[export] Instance lex_compare_laws {A B} (ca : A -> A -> comparison) (cb : B -> B -> comparison)
  `{CompareLaws A ca} `{CompareLaws B cb} : CompareLaws (lex_compare ca cb).
Proof.
  constructor; unfold lex_compare.
  - intros [a1 b1] [a2 b2]; simpl. destruct (ca a1 a2) eqn:Ea; try discriminate.
    intros Eb. apply cmp_eq in Ea, Eb. now subst.
  - intros [a b]; simpl. now rewrite !cmp_refl.
  - intros [a1 b1] [a2 b2]; simpl. rewrite (cmp_antisym (cmp:=ca) a1 a2).
    destruct (ca a1 a2); simpl; try reflexivity. apply cmp_antisym.
  - intros [a1 b1] [a2 b2] [a3 b3]; simpl.
    destruct (ca a1 a2) eqn:E12; try discriminate;
      destruct (ca a2 a3) eqn:E23; try discriminate; intros H1 H2.
    + apply cmp_eq in E12, E23. subst. rewrite cmp_refl. eapply cmp_trans; eauto.
    + apply cmp_eq in E12. subst. now rewrite E23.
    + apply cmp_eq in E23. subst. now rewrite E12.
    + now rewrite (cmp_trans _ _ _ E12 E23).
Qed.

Lemma is_eq_true {K} (cmp : K -> K -> comparison) `{CompareLaws K cmp} (a b : K) :
  is_eq (cmp a b) = true <-> a = b.
Proof.
  unfold is_eq. split.
  - destruct (cmp a b) eqn:E; try discriminate. intros _. now apply cmp_eq.
  - intros ->. now rewrite cmp_refl.
Qed.

Lemma district_key_eqb_eq (a b : district_key) : district_key_eqb a b = true <-> a = b.
Proof. unfold district_key_eqb, district_key_compare. apply is_eq_true; typeclasses eauto. Qed.

(* ------------------------------------------------------------------ *)
(** ** groupby and merge *)

Section GroupByFacts.
Context {K : Type} (cmp : K -> K -> comparison) `{CompareLaws K cmp}.

Lemma insert_key_In k ks x : In x (insert_key cmp k ks) <-> x = k \/ In x ks.
Proof.
  induction ks as [|k' t IH]; simpl.
  - intuition.
  - destruct (cmp k k') eqn:E; simpl.
    + apply cmp_eq in E. subst. intuition.
    + intuition.
    + rewrite IH. intuition.
Qed.

Lemma group_keys_In ks x : In x (group_keys cmp ks) <-> In x ks.
Proof.
  induction ks as [|k t IH]; simpl; [reflexivity|].
  rewrite insert_key_In, IH. intuition.
Qed.

Lemma insert_key_sorted k ks :
  StronglySorted (key_lt cmp) ks -> StronglySorted (key_lt cmp) (insert_key cmp k ks).
Proof.
  induction 1 as [|k' t Hs IH Hall]; simpl.
  - repeat constructor.
  - destruct (cmp k k') eqn:E.
    + now constructor.
    + constructor; [now constructor|]. constructor; [exact E|].
      rewrite Forall_forall in *. intros y Hy. eapply cmp_trans; [exact E|]. now apply Hall.
    + constructor; [exact IH|]. rewrite Forall_forall in *. intros y Hy.
      apply insert_key_In in Hy. destruct Hy as [->|Hy]; [|now apply Hall].
      unfold key_lt. rewrite (cmp_antisym k k'), E. reflexivity.
Qed.

Lemma group_keys_sorted ks : StronglySorted (key_lt cmp) (group_keys cmp ks).
Proof.
  induction ks as [|k t IH]; simpl; [constructor|]. now apply insert_key_sorted.
Qed.

Lemma groupby_keys {A} (key : A -> K) (df : list A) :
  map fst (groupby cmp key df) = group_keys cmp (map key df).
Proof. unfold groupby. rewrite map_map. simpl. apply map_id. Qed.

Lemma groupby_In {A} (key : A -> K) (df : list A) g :
  In g (groupby cmp key df) <->
  (exists r, In r df /\ key r = fst g) /\
  snd g = filter (fun r => is_eq (cmp (key r) (fst g))) df.
Proof.
  unfold groupby. rewrite in_map_iff. split.
  - intros [k [<- Hk]]. simpl. split; [|reflexivity].
    apply group_keys_In, in_map_iff in Hk. destruct Hk as [r [E Hr]]. eauto.
  - intros [[r [Hr E]] Hg]. exists (fst g). split.
    + destruct g; simpl in *. now subst.
    + apply group_keys_In, in_map_iff. eauto.
Qed.

Lemma groupby_key_present {A} (key : A -> K) (df : list A) k :
  In k (map fst (groupby cmp key df)) <-> exists r, In r df /\ key r = k.
Proof.
  rewrite groupby_keys, group_keys_In, in_map_iff. split; intros [r [H1 H2]]; eauto.
Qed.
End GroupByFacts.

Lemma merge_In {A B C} (on : A -> B -> bool) (comb : A -> B -> C) l r c :
  In c (merge on comb l r) <->
  exists a b, In a l /\ In b r /\ on a b = true /\ c = comb a b.
Proof.
  unfold merge. rewrite in_flat_map. split.
  - intros [a [Ha Hc]]. apply in_map_iff in Hc. destruct Hc as [b [<- Hb]].
    apply filter_In in Hb. destruct Hb as [Hb Hon]. eauto 6.
  - intros [a [b [Ha [Hb [Hon ->]]]]]. exists a. split; [exact Ha|].
    apply in_map. apply filter_In. now split.
Qed.

Lemma demo_d_keys (t : list DemographicSnapshot) k :
  In k (map dd_key (demo_d t)) <-> present k t.
Proof.
  unfold demo_d, present. rewrite map_map. simpl.
  change (map (fun x : district_key * list DemographicSnapshot => fst x)
              (groupby district_key_compare key_of t))
    with (map fst (groupby district_key_compare key_of t)).
  unfold district_key_compare. apply groupby_key_present. typeclasses eauto.
Qed.

Lemma bio_d_keys (t : list BiometricEvent) k :
  In k (map bd_key (bio_d t)) <-> present k t.
Proof.
  unfold bio_d, present. rewrite map_map. simpl.
  change (map (fun x : district_key * list BiometricEvent => fst x)
              (groupby district_key_compare key_of t))
    with (map fst (groupby district_key_compare key_of t)).
  unfold district_key_compare. apply groupby_key_present. typeclasses eauto.
Qed.

Lemma enr_d_keys (t : list EnrolmentEvent) k :
  In k (map ed_key (enr_d t)) <-> present k t.
Proof.
  unfold enr_d, present. rewrite map_map. simpl.
  change (map (fun x : district_key * list EnrolmentEvent => fst x)
              (groupby district_key_compare key_of t))
    with (map fst (groupby district_key_compare key_of t)).
  unfold district_key_compare. apply groupby_key_present. typeclasses eauto.
Qed.

Lemma joined_keys demographic_f biometric_f enrolment_f k :
  (exists j, In j (joined demographic_f biometric_f enrolment_f) /\ joined_key j = k) <->
  present k demographic_f /\ present k biometric_f /\ present k enrolment_f.
Proof.
  unfold joined, merge_districts. split.
  - intros [j [Hj Hk]]. apply merge_In in Hj.
    destruct Hj as [[d b] [e [Hdb [He [Hon ->]]]]].
    apply merge_In in Hdb. destruct Hdb as [d' [b' [Hd [Hb [Hon' E]]]]].
    inversion E; subst d' b'; clear E. simpl in *.
    apply district_key_eqb_eq in Hon, Hon'.
    unfold joined_key in Hk; simpl in Hk. rewrite <- surjective_pairing in Hk. subst k.
    split; [|split].
    + apply demo_d_keys. now apply in_map.
    + apply bio_d_keys. rewrite Hon'. now apply in_map.
    + apply enr_d_keys. rewrite Hon. now apply in_map.
  - intros [Hd [Hb He]].
    apply demo_d_keys, in_map_iff in Hd. destruct Hd as [d [Ed Hd]].
    apply bio_d_keys, in_map_iff in Hb. destruct Hb as [b [Eb Hb]].
    apply enr_d_keys, in_map_iff in He. destruct He as [e [Ee He]].
    eexists. split.
    + apply merge_In. exists (d, b), e. split; [|split; [exact He|split; [|reflexivity]]].
      * apply merge_In. exists d, b. repeat split; try assumption.
        apply district_key_eqb_eq. congruence.
      * simpl. apply district_key_eqb_eq. congruence.
    + unfold joined_key; simpl. rewrite <- surjective_pairing. exact Ed.
Qed.

(** C6: the district table is an inner join on (state, district): a pair
    occurs in the joined table exactly when it occurs in each of the three
    filtered tables, so a district missing from any one of them is in neither
    the joined table nor the rows that survive the population floor. *)
Theorem district_aggregate_is_inner_join : forall (w : Filters) (src : Sources) (k : district_key),
  ((exists j, In j (district_join w src) /\ joined_key j = k) <->
   present k (demographic_f w src) /\ present k (biometric_f w src) /\
   present k (enrolment_f w src)) /\
  (forall a, In a (district_aggregate w src) -> joined_key (da_row a) = k ->
     present k (demographic_f w src) /\ present k (biometric_f w src) /\
     present k (enrolment_f w src)).
Proof.
  intros w src k. split.
  - apply joined_keys.
  - intros a Ha Hk. unfold district_aggregate, merged in Ha.
    apply filter_In in Ha. destruct Ha as [Ha _].
    apply in_map_iff in Ha. destruct Ha as [j [<- Hj]].
    apply joined_keys. exists j. split; [exact Hj|exact Hk].
Qed.

(* ------------------------------------------------------------------ *)
(** ** Rankings: sort_values and head *)

Section RankingFacts.
Context {F : Type} `{Float64 F} {A : Type} (key : A -> F).

Lemma insert_desc_In x l y : In y (insert_desc key x l) <-> y = x \/ In y l.
Proof.
  induction l as [|z l IH]; simpl.
  - intuition.
  - destruct (fltb (key x) (key z)); simpl; [rewrite IH|]; intuition.
Qed.

Lemma insertion_desc_In l y : In y (fold_right (insert_desc key) [] l) <-> In y l.
Proof.
  induction l as [|z l IH]; simpl; [reflexivity|].
  rewrite insert_desc_In, IH. intuition.
Qed.

Lemma sort_values_desc_In df y : In y (sort_values_desc key df) <-> In y df.
Proof.
  unfold sort_values_desc. rewrite in_app_iff, insertion_desc_In, !filter_In. split.
  - intuition.
  - intros Hy. destruct (isnan (key y)) eqn:E; [right|left]; now rewrite ?E.
Qed.

Lemma insert_desc_length x l :
  List.length (insert_desc key x l) = S (List.length l).
Proof.
  induction l as [|z l IH]; simpl; [reflexivity|].
  destruct (fltb (key x) (key z)); simpl; now rewrite ?IH.
Qed.

Lemma filter_partition_length (p : A -> bool) l :
  (List.length (filter (fun r => negb (p r)) l) + List.length (filter p l))%nat
  = List.length l.
Proof.
  induction l as [|z l IH]; simpl; [reflexivity|].
  destruct (p z); simpl; lia.
Qed.

Lemma sort_values_desc_length df :
  List.length (sort_values_desc key df) = List.length df.
Proof.
  unfold sort_values_desc. rewrite length_app.
  rewrite <- (filter_partition_length (fun r => isnan (key r)) df). f_equal.
  induction (filter (fun r => negb (isnan (key r))) df) as [|z l IH]; simpl; [reflexivity|].
  now rewrite insert_desc_length, IH.
Qed.

End RankingFacts.

Lemma head_In {A} n (df : list A) y : In y (head n df) -> In y df.
Proof.
  unfold head. revert df; induction n as [|n IH]; intros [|z df]; simpl; try tauto.
  intros [->|Hy]; [now left|right; now apply IH].
Qed.

(* ------------------------------------------------------------------ *)
(** ** The population floor and the rankings built on [merged] *)

Lemma district_aggregate_In w src a :
  In a (district_aggregate w src) <->
  In a (map with_totals (district_join w src)) /\ 10000 < population a.
Proof.
  unfold district_aggregate, merged, district_join, population_floor.
  rewrite filter_In, Z.ltb_lt. reflexivity.
Qed.

Lemma with_intensity_In {F} `{Float64 F} (m : list DistrictAggregate) (h : Hub F) :
  In h (with_intensity m) ->
  In (hub_row h) m /\
  biometric_intensity_index h
  = fdiv (fdiv (of_int (biometrics (hub_row h))) (of_int (population (hub_row h))))
         (national_rate m).
Proof.
  unfold with_intensity. rewrite in_map_iff. intros [a [<- Ha]]. simpl. now split.
Qed.

Lemma top_districts_In {F} `{Float64 F} (m : list DistrictAggregate) (h : Hub F) :
  In h (top_districts m) -> In h (with_intensity m).
Proof.
  unfold top_districts. intros Hh. apply head_In in Hh.
  now apply sort_values_desc_In in Hh.
Qed.

Lemma state_agg_In {F} `{Float64 F} (m : list DistrictAggregate) (s : StateAgg F) :
  In s (state_agg m) ->
  sa_population s
  = sum64 (map population
             (filter (fun a => is_eq (String.compare (j_state (da_row a)) (sa_state s))) m)) /\
  exists a, In a m /\ j_state (da_row a) = sa_state s.
Proof.
  unfold state_agg, state_sums. rewrite filter_In, map_map, in_map_iff.
  intros [[g [<- Hg]] _]. simpl.
  apply groupby_In in Hg; [|typeclasses eauto].
  destruct Hg as [Hex Hrows]. rewrite Hrows. split; [reflexivity|exact Hex].
Qed.

(** C5 (as the code has it): the population floor removes every joined row
    with population <= 10,000 (population being the wrapped sum of the two
    demographic sums) from [merged], hence from the intensity ranking and
    from the sums behind the per-capita state ranking; with populations
    50,000 / 20,000 / 5,000 exactly the two districts above the floor are
    left in [merged] and in the intensity ranking. *)
Theorem population_floor_on_district_rankings :
  forall (F : Type) (ops : Float64 F) (w : Filters) (src : Sources),
  (forall a, In a (district_aggregate w src) <->
             In a (map with_totals (district_join w src)) /\ 10000 < population a) /\
  (forall a, In a (district_aggregate w src) ->
             population a = add64 (j_demo_age_5_17 (da_row a)) (j_demo_age_17_ (da_row a))) /\
  (forall h, In h (top_districts (district_aggregate w src)) ->
             In (hub_row h) (district_aggregate w src) /\ 10000 < population (hub_row h)) /\
  (forall s, In s (top_states (district_aggregate w src)) ->
             sa_population s
             = sum64 (map population
                        (filter (fun a => is_eq (String.compare (j_state (da_row a)) (sa_state s)))
                                (district_aggregate w src))) /\
             exists a, In a (district_aggregate w src) /\ j_state (da_row a) = sa_state s) /\
  map (fun a => j_district (da_row a)) (district_aggregate year_2025 floor_sources)
  = ["High"; "Mid"] /\
  map (fun h => j_district (da_row (hub_row h)))
      (top_districts (F:=float) (district_aggregate year_2025 floor_sources))
  = ["Mid"; "High"].
Proof.
  intros F ops w src.
  split; [intros a; apply district_aggregate_In|].
  split.
  { intros a Ha. apply district_aggregate_In in Ha. destruct Ha as [Ha _].
    apply in_map_iff in Ha. destruct Ha as [j [<- _]]. reflexivity. }
  split.
  { intros h Hh. apply top_districts_In, with_intensity_In in Hh.
    destruct Hh as [Hh _]. split; [exact Hh|].
    now apply district_aggregate_In in Hh. }
  split.
  { intros s Hs. unfold top_states in Hs. apply head_In in Hs.
    apply sort_values_desc_In in Hs. now apply state_agg_In. }
  split; vm_compute; reflexivity.
Qed.

(** C5, the claim as stated: the district of 5,000 people, which the floor
    removes from [merged], is still an entry of the growth-rate ranking,
    which is computed from the monthly biometric series alone; that ranking
    has three entries, not two. *)
Lemma population_floor_not_applied_to_growth_ranking :
  (exists a, In a (map with_totals (district_join year_2025 floor_sources)) /\
             j_district (da_row a) = "Low" /\ population a = 5000) /\
  (forall a, In a (district_aggregate year_2025 floor_sources) ->
             j_district (da_row a) <> "Low") /\
  In "Low" (map (fun g => t_district (g_row g))
                (trend (F:=float) (monthly (biometric_f year_2025 floor_sources)))) /\
  List.length (trend (F:=float) (monthly (biometric_f year_2025 floor_sources))) = 3%nat.
Proof.
  split; [|split; [|split]].
  - eexists. split; [|split].
    + vm_compute. right; left. reflexivity.
    + reflexivity.
    + reflexivity.
  - intros a Ha Hlow.
    pose proof (in_map (fun a' => j_district (da_row a')) _ _ Ha) as E.
    simpl in E. rewrite Hlow in E.
    vm_compute in E. destruct E as [E|[E|[]]]; discriminate.
  - vm_compute. right; left. reflexivity.
  - vm_compute. reflexivity.
Qed.

(* ------------------------------------------------------------------ *)
(** ** The intensity index when the national rate is zero *)

Lemma Reqb_refl (x : R) : Reqb x x = true.
Proof. unfold Reqb. destruct (Req_dec_T x x); [reflexivity|contradiction]. Qed.

Lemma xdiv_by_zero_not_finite (a : xreal) (x : R) : xdiv a (Fin 0) <> Fin x.
Proof.
  destruct a as [y| | |]; simpl; rewrite ?Reqb_refl.
  - destruct (Reqb y 0); [discriminate|]. destruct (Rltb 0 y); discriminate.
  - destruct (Rltb 0 0); discriminate.
  - destruct (Rltb 0 0); discriminate.
  - discriminate.
Qed.

(** Nothing guards the division by [national_rate]: in exact arithmetic a
    zero rate leaves no finite index in the table. *)
Lemma zero_national_rate_never_finite (m : list DistrictAggregate) (h : Hub xreal) (x : R) :
  national_rate (F:=xreal) m = Fin 0 ->
  In h (with_intensity m) ->
  biometric_intensity_index h <> Fin x.
Proof.
  intros Hrate Hh. apply with_intensity_In in Hh. destruct Hh as [_ ->].
  rewrite Hrate. apply xdiv_by_zero_not_finite.
Qed.

(** C1: on a district of 20,000 people without biometric transactions the
    national rate is 0.0 and the ranked table carries a NaN index: the
    division by [national_rate] is not guarded. *)
Theorem intensity_index_zero_rate_is_nan :
  map (fun a => (j_district (da_row a), population a, biometrics a))
      (district_aggregate year_2025 idle_sources) = [("Idle", 20000, 0)] /\
  national_rate (F:=float) (district_aggregate year_2025 idle_sources) = 0%float /\
  map (fun h => (j_district (da_row (hub_row h)), isnan (biometric_intensity_index h)))
      (top_districts (F:=float) (district_aggregate year_2025 idle_sources))
  = [("Idle", true)].
Proof. repeat split; vm_compute; reflexivity. Qed.

(* ------------------------------------------------------------------ *)
(** ** The monthly series is ordered by (district, month) *)

Lemma StronglySorted_map {A B} (R : B -> B -> Prop) (f : A -> B) (l : list A) :
  StronglySorted R (map f l) -> StronglySorted (fun a b => R (f a) (f b)) l.
Proof.
  induction l as [|x l IH]; simpl; intros Hs; [constructor|].
  inversion Hs as [|? ? Hs' Hall]; subst. constructor; [now apply IH|].
  rewrite Forall_forall in *. intros y Hy. apply Hall. now apply in_map.
Qed.

Lemma StronglySorted_filter {A} (R : A -> A -> Prop) (p : A -> bool) (l : list A) :
  StronglySorted R l -> StronglySorted R (filter p l).
Proof.
  induction 1 as [|x l Hs IH Hall]; simpl; [constructor|].
  destruct (p x); [|exact IH]. constructor; [exact IH|].
  rewrite Forall_forall in *. intros y Hy. apply filter_In in Hy. now apply Hall.
Qed.

Lemma StronglySorted_last {A} (R : A -> A -> Prop) (l : list A) (d : A) :
  StronglySorted R l -> forall y, In y l -> y = last l d \/ R y (last l d).
Proof.
  induction 1 as [|x l Hs IH Hall]; intros y Hy; [destruct Hy|].
  destruct l as [|z l']; simpl in *.
  - destruct Hy as [->|[]]. now left.
  - destruct Hy as [->|Hy].
    + right. rewrite Forall_forall in Hall. apply Hall.
      change (In (last (z :: l') d) (z :: l')).
      clear. revert z. induction l' as [|w l' IH]; intros z; simpl; [now left|].
      right. apply IH.
    + apply IH. exact Hy.
Qed.

Lemma last_map {A B} (f : A -> B) (l : list A) (a : A) (b : B) :
  l <> [] -> last (map f l) b = f (last l a).
Proof.
  induction l as [|x l IH]; intros Hne; [contradiction|].
  destruct l as [|y l']; [reflexivity|].
  change (last (map f (y :: l')) b = f (last (y :: l') a)). apply IH. discriminate.
Qed.

Lemma last_In {A} (l : list A) (a : A) : l <> [] -> In (last l a) l.
Proof.
  induction l as [|x l IH]; intros Hne; [contradiction|].
  destruct l as [|y l']; [now left|].
  right. change (In (last (y :: l') a) (y :: l')). apply IH. discriminate.
Qed.

Lemma monthly_sorted (biometric_f : list BiometricEvent) :
  StronglySorted row_lt (monthly biometric_f).
Proof.
  unfold row_lt. apply (StronglySorted_map (key_lt month_key_compare) month_key_of).
  unfold monthly, monthly_sums. rewrite !map_map.
  erewrite map_ext; [|intros g; unfold month_key_of; simpl; symmetry; apply surjective_pairing].
  change (map (fun g : month_key * list BioMonth => fst g)) with (map (@fst month_key (list BioMonth))).
  rewrite groupby_keys. apply group_keys_sorted. unfold month_key_compare. typeclasses eauto.
Qed.

Lemma row_lt_same_district r r' :
  m_district r = m_district r' -> row_lt r r' -> date_compare (m_month r) (m_month r') = Lt.
Proof.
  unfold row_lt, month_key_compare, lex_compare, month_key_of. simpl.
  intros ->. now rewrite string_compare_refl.
Qed.

Lemma date_le_refl d : date_le d d.
Proof. unfold date_le, date_leb. now rewrite date_compare_refl. Qed.

Lemma date_lt_le a b : date_compare a b = Lt -> date_le a b.
Proof. unfold date_le, date_leb. now intros ->. Qed.

Lemma trend_agg_endpoints (m : list MonthlyRow) (t : Trend) :
  StronglySorted row_lt m -> In t (trend_agg m) ->
  earliest_total (t_district t) m (first_val t) /\
  latest_total (t_district t) m (last_val t).
Proof.
  intros Hs Ht. unfold trend_agg in Ht. apply in_map_iff in Ht.
  destruct Ht as [[d G] [<- Hg]]. simpl.
  apply groupby_In in Hg; [|typeclasses eauto]. simpl in Hg.
  destruct Hg as [[r [Hr Hd]] HG].
  assert (HinG : forall x, In x G <-> In x m /\ m_district x = d).
  { intros x. rewrite HG, filter_In. split; intros [H1 H2]; split; try assumption.
    - now apply (is_eq_true String.compare) in H2.
    - now apply (is_eq_true String.compare). }
  assert (HsG : StronglySorted row_lt G) by (rewrite HG; now apply StronglySorted_filter).
  assert (Hne : G <> []).
  { intros E. assert (Hin : In r G) by (apply HinG; now split). rewrite E in Hin. destruct Hin. }
  split.
  - destruct G as [|r0 G']; [contradiction|]. simpl.
    assert (H0 : In r0 m /\ m_district r0 = d) by (apply HinG; now left).
    exists r0. destruct H0 as [H0 H0d]. repeat split; try assumption.
    intros x Hx Hxd. assert (HxG : In x (r0 :: G')) by (apply HinG; now split).
    destruct HxG as [->|HxG]; [apply date_le_refl|].
    inversion HsG as [|? ? _ Hall]; subst. rewrite Forall_forall in Hall.
    apply date_lt_le, row_lt_same_district; [congruence|now apply Hall].
  - rewrite (last_map biometrics_total G r 0 Hne).
    assert (H1 : In (last G r) m /\ m_district (last G r) = d)
      by (apply HinG; now apply last_In).
    exists (last G r). destruct H1 as [H1 H1d]. repeat split; try assumption.
    intros x Hx Hxd. assert (HxG : In x G) by (apply HinG; now split).
    destruct (StronglySorted_last row_lt G r HsG x HxG) as [->|Hlt]; [apply date_le_refl|].
    apply date_lt_le, row_lt_same_district; [congruence|exact Hlt].
Qed.

(* ------------------------------------------------------------------ *)
(** ** Growth-rate ranking *)

Lemma wrap64_small z : - 2 ^ 63 <= z < 2 ^ 63 -> wrap64 z = z.
Proof. intros Hz. unfold wrap64. rewrite Z.mod_small; lia. Qed.

Lemma Reqb_false (x y : R) : x <> y -> Reqb x y = false.
Proof. intros Hne. unfold Reqb. destruct (Req_dec_T x y); [contradiction|reflexivity]. Qed.

Lemma xdiv_fin (x y : R) : y <> 0%R -> xdiv (Fin x) (Fin y) = Fin (x / y).
Proof. intros Hy. simpl. now rewrite (Reqb_false y 0 Hy). Qed.

Lemma growth_rate_exact (t : Trend) :
  0 < first_val t ->
  growth_rate (with_growth_rate (F:=xreal) t)
  = Fin (IZR (sub64 (last_val t) (first_val t)) / IZR (first_val t)).
Proof.
  intros Hpos. unfold with_growth_rate; simpl. apply xdiv_fin.
  apply IZR_lt in Hpos. lra.
Qed.

Lemma trend_In {F} `{Float64 F} (m : list MonthlyRow) (g : Growth F) :
  In g (trend m) -> In (g_row g) (trend_positive m) /\ g = with_growth_rate (g_row g).
Proof.
  unfold trend. intros Hg. apply head_In in Hg. apply sort_values_desc_In in Hg.
  apply in_map_iff in Hg. destruct Hg as [t [<- Ht]]. simpl. now split.
Qed.

Lemma trend_positive_In (m : list MonthlyRow) (t : Trend) :
  In t (trend_positive m) <-> In t (trend_agg m) /\ 0 < first_val t.
Proof. unfold trend_positive. rewrite filter_In, Z.ltb_lt. reflexivity. Qed.

(** C4: a district is in the growth-rate ranking only when the total of its
    earliest observed month, [first_val], is strictly positive; its
    [last_val] is the total of its latest observed month and its growth rate
    is (last_val - first_val) / first_val (the int64 difference, which is the
    plain difference whenever that fits, converted and divided; in exact
    arithmetic the real quotient).  Before the cut to ten entries the
    filter keeps exactly the districts with first_val > 0.  A district going
    from 0 to 500 is not ranked and one going from 100 to 200 has growth
    rate exactly 1.0, that is 100%. *)
Theorem growth_ranking_spec :
  forall (F : Type) (ops : Float64 F) (w : Filters) (src : Sources),
  (forall g, In g (trend (monthly (biometric_f w src))) ->
     0 < first_val (g_row g) /\
     earliest_total (t_district (g_row g)) (monthly (biometric_f w src)) (first_val (g_row g)) /\
     latest_total (t_district (g_row g)) (monthly (biometric_f w src)) (last_val (g_row g)) /\
     growth_rate g
     = fdiv (of_int (sub64 (last_val (g_row g)) (first_val (g_row g))))
            (of_int (first_val (g_row g)))) /\
  (forall t, In t (trend_positive (monthly (biometric_f w src))) <->
             In t (trend_agg (monthly (biometric_f w src))) /\ 0 < first_val t) /\
  (forall t, 0 < first_val t ->
     growth_rate (with_growth_rate (F:=xreal) t)
     = Fin (IZR (sub64 (last_val t) (first_val t)) / IZR (first_val t))) /\
  (forall a b, - 2 ^ 63 <= a - b < 2 ^ 63 -> sub64 a b = a - b) /\
  trend_agg (monthly (biometric_f year_2025 growth_sources))
  = [mkTrend "Dormant" 0 500; mkTrend "Doubling" 100 200] /\
  trend (F:=float) (monthly (biometric_f year_2025 growth_sources))
  = [mkGrowth (mkTrend "Doubling" 100 200) 1%float].
Proof.
  intros F ops w src.
  split.
  { intros g Hg. apply trend_In in Hg. destruct Hg as [Ht Hg].
    apply trend_positive_In in Ht. destruct Ht as [Ht Hpos].
    destruct (trend_agg_endpoints _ _ (monthly_sorted (biometric_f w src)) Ht) as [He Hl].
    repeat split; try assumption. rewrite Hg at 1. reflexivity. }
  split; [intros t; apply trend_positive_In|].
  split; [exact growth_rate_exact|].
  split; [intros a b Hab; unfold sub64; now apply wrap64_small|].
  split; vm_compute; reflexivity.
Qed.

(* ------------------------------------------------------------------ *)
(** ** z-scores in exact arithmetic *)

Lemma fold_Rplus_shift (l : list R) (s : R) :
  fold_left Rplus l s = (s + fold_left Rplus l 0)%R.
Proof.
  revert s; induction l as [|x l IH]; intros s; simpl; [lra|].
  rewrite (IH (s + x)%R), (IH (0 + x)%R). lra.
Qed.

Lemma Rsum_cons (x : R) (l : list R) : Rsum (x :: l) = (x + Rsum l)%R.
Proof. unfold Rsum; simpl. rewrite fold_Rplus_shift. lra. Qed.

Lemma xsum_fin (l : list R) (s : R) :
  fold_left xadd (map Fin l) (Fin s) = Fin (fold_left Rplus l s).
Proof. revert s; induction l as [|x l IH]; intros s; simpl; [reflexivity|apply IH]. Qed.

Lemma fsum_fin (l : list R) : fsum (F:=xreal) (map Fin l) = Fin (Rsum l).
Proof. unfold fsum, Rsum. simpl. apply xsum_fin. Qed.

Lemma length_pos_IZR {A} (l : list A) :
  l <> [] -> (0 < IZR (Z.of_nat (List.length l)))%R.
Proof. intros Hne. apply IZR_lt. destruct l; [contradiction|simpl; lia]. Qed.

Lemma fmean_fin (l : list R) :
  l <> [] ->
  fmean (F:=xreal) (map Fin l) = Fin (Rsum l / IZR (Z.of_nat (List.length l))).
Proof.
  intros Hne. unfold fmean. rewrite fsum_fin, length_map. simpl.
  apply xdiv_fin. pose proof (length_pos_IZR l Hne). lra.
Qed.

Lemma Rsum_nonneg (l : list R) : (forall x, In x l -> (0 <= x)%R) -> (0 <= Rsum l)%R.
Proof.
  induction l as [|x l IH]; intros Hall.
  - unfold Rsum; simpl; lra.
  - rewrite Rsum_cons. pose proof (Hall x (or_introl eq_refl)).
    assert (0 <= Rsum l)%R by (apply IH; intros y Hy; apply Hall; now right). lra.
Qed.

Lemma Rltb_false (x y : R) : (y <= x)%R -> Rltb x y = false.
Proof. intros Hle. unfold Rltb. destruct (Rlt_dec x y); [lra|reflexivity]. Qed.

Lemma Rltb_true (x y : R) : (x < y)%R -> Rltb x y = true.
Proof. intros Hlt. unfold Rltb. destruct (Rlt_dec x y); [reflexivity|contradiction]. Qed.

Lemma variance_nonneg (a : list Z) : a <> [] -> (0 <= variance_of a)%R.
Proof.
  intros Hne. unfold variance_of.
  apply Rmult_le_pos.
  - apply Rsum_nonneg. intros x Hx. apply in_map_iff in Hx. destruct Hx as [z [<- _]].
    exact (Rle_0_sqr (IZR z - mean_of a)).
  - left. apply Rinv_0_lt_compat. now apply length_pos_IZR.
Qed.

Lemma fabs_fin (y : R) : fabs (F:=xreal) (Fin y) = Fin (Rabs y).
Proof.
  unfold fabs. cbn [fltb fsub of_int Exact xltb]. unfold Rltb, Rabs.
  destruct (Rlt_dec y 0) as [Hlt|Hge]; destruct (Rcase_abs y) as [Hc|Hc]; try lra.
  - cbn. f_equal. ring.
  - reflexivity.
Qed.

Lemma eps_fin : eps (F:=xreal) = Fin (1 / IZR (2 ^ 52)).
Proof.
  unfold eps. cbn [fdiv of_int Exact]. apply xdiv_fin.
  apply not_0_IZR. discriminate.
Qed.

(** In exact arithmetic: NaN when the standard deviation does not exceed
    [|eps * mean|], the quotient of deviation and standard deviation
    otherwise. *)
Lemma zscore_exact (a : list Z) :
  a <> [] ->
  zscore (F:=xreal) a
  = map (fun z => if Rltb (Rabs (1 / IZR (2 ^ 52) * mean_of a))
                          (R_sqrt.sqrt (variance_of a))
                  then xdiv (Fin (IZR z - mean_of a)) (Fin (R_sqrt.sqrt (variance_of a)))
                  else NaN) a.
Proof.
  intros Hne. unfold zscore.
  assert (Hx : map (of_int (F:=xreal)) a = map Fin (map IZR a)) by (now rewrite map_map).
  assert (Hne' : map IZR a <> []) by (destruct a; [contradiction|discriminate]).
  rewrite Hx, (fmean_fin _ Hne'), length_map. fold (mean_of a).
  assert (Hsq : map (fun v => fmul (fsub v (Fin (mean_of a))) (fsub v (Fin (mean_of a))))
                    (map Fin (map IZR a))
                = map Fin (map (fun z => (IZR z - mean_of a) * (IZR z - mean_of a))%R a)).
  { rewrite !map_map. apply map_ext. intros z. reflexivity. }
  rewrite Hsq.
  assert (Hne'' : map (fun z => (IZR z - mean_of a) * (IZR z - mean_of a))%R a <> [])
    by (destruct a; [contradiction|discriminate]).
  rewrite (fmean_fin _ Hne''), length_map. fold (variance_of a).
  assert (Hsqrt : fsqrt (F:=xreal) (Fin (variance_of a)) = Fin (R_sqrt.sqrt (variance_of a))).
  { simpl. now rewrite (Rltb_false _ _ (variance_nonneg a Hne)). }
  rewrite Hsqrt, eps_fin.
  change (fmul (Fin (1 / IZR (2 ^ 52))) (Fin (mean_of a)))
    with (Fin (1 / IZR (2 ^ 52) * mean_of a)).
  rewrite fabs_fin. cbn [fleb Exact xleb nan].
  rewrite !map_map. apply map_ext. intros z.
  destruct (Rltb (Rabs (1 / IZR (2 ^ 52) * mean_of a)) (R_sqrt.sqrt (variance_of a)));
    reflexivity.
Qed.

Lemma Rsum_constant (l : list R) (c : R) :
  (forall x, In x l -> x = c) -> Rsum l = (INR (List.length l) * c)%R.
Proof.
  induction l as [|x l IH]; intros Hall.
  - unfold Rsum; simpl; lra.
  - rewrite Rsum_cons, IH by (intros y Hy; apply Hall; now right).
    rewrite (Hall x (or_introl eq_refl)).
    rewrite (S_INR (List.length l) : INR (List.length (c :: l)) = _). ring.
Qed.

Lemma mean_constant (a : list Z) (c : Z) :
  a <> [] -> (forall z, In z a -> z = c) -> mean_of a = IZR c.
Proof.
  intros Hne Hall. unfold mean_of.
  rewrite (Rsum_constant _ (IZR c)).
  - rewrite length_map, INR_IZR_INZ. field.
    pose proof (length_pos_IZR a Hne). lra.
  - intros x Hx. apply in_map_iff in Hx. destruct Hx as [z [<- Hz]]. now rewrite (Hall z Hz).
Qed.

Lemma variance_constant (a : list Z) (c : Z) :
  a <> [] -> (forall z, In z a -> z = c) -> variance_of a = 0%R.
Proof.
  intros Hne Hall. unfold variance_of. rewrite (mean_constant a c Hne Hall).
  rewrite (Rsum_constant _ 0%R).
  - unfold Rdiv. ring.
  - intros x Hx. apply in_map_iff in Hx. destruct Hx as [z [<- Hz]].
    rewrite (Hall z Hz). ring.
Qed.

(** A series that takes one value only has no finite z-score. *)
Lemma zscore_constant (a : list Z) (c : Z) :
  (forall z, In z a -> z = c) -> forall v, In v (zscore (F:=xreal) a) -> v = NaN.
Proof.
  intros Hall v Hv. destruct a as [|z0 a'] eqn:Ea; [destruct Hv|]. rewrite <- Ea in *.
  assert (Hne : a <> []) by (rewrite Ea; discriminate).
  rewrite (zscore_exact a Hne) in Hv. apply in_map_iff in Hv.
  destruct Hv as [z [<- Hz]].
  rewrite (variance_constant a c Hne Hall), sqrt_0.
  rewrite Rltb_false by apply Rabs_pos. reflexivity.
Qed.

Lemma nth_all_nan (l : list xreal) (k : nat) :
  (forall v, In v l -> v = NaN) -> nth k l NaN = NaN.
Proof.
  intros Hall. destruct (nth_in_or_default k l NaN) as [Hin|E]; [now apply Hall|exact E].
Qed.

(* ------------------------------------------------------------------ *)
(** ** The z-score column and the spike alerts *)

Lemma transform_from_nth {F} `{Float64 F} (f : list Z -> list F) (all : list MonthlyRow) :
  forall rest seen i row,
    nth_error rest i = Some row ->
    nth_error (transform_from f all seen rest) i
    = Some (nth (List.length (filter (same_district row) (seen ++ firstn i rest)))
                (f (map biometrics_total (filter (same_district row) all))) nan).
Proof.
  induction rest as [|r rest IH]; intros seen i row Hi.
  - destruct i; discriminate.
  - destruct i as [|i]; simpl in *.
    + inversion Hi; subst. now rewrite app_nil_r.
    + rewrite (IH (seen ++ [r]) i row Hi). now rewrite <- app_assoc.
Qed.

Lemma combine_nth_error {A B} (l : list A) (l' : list B) i a b :
  nth_error l i = Some a -> nth_error l' i = Some b ->
  nth_error (combine l l') i = Some (a, b).
Proof.
  revert l' i; induction l as [|x l IH]; intros [|y l'] [|i]; simpl; try discriminate.
  - now intros [= ->] [= ->].
  - apply IH.
Qed.

(** Every row gets the z-score of its total within the rows of its own
    district. *)
Lemma monthly_z_nth {F} `{Float64 F} (m : list MonthlyRow) i row :
  nth_error m i = Some row ->
  nth_error (monthly_z m) i
  = Some (mkSeries row
            (nth (List.length (filter (same_district row) (firstn i m)))
                 (zscore (map biometrics_total (filter (same_district row) m))) nan)).
Proof.
  intros Hi. unfold monthly_z.
  pose proof (transform_from_nth zscore m m [] i row Hi) as Htr. simpl in Htr.
  pose proof (combine_nth_error m (transform zscore m) i row _ Hi Htr) as Hc.
  exact (map_nth_error (fun p => mkSeries (fst p) (snd p)) i _ Hc).
Qed.

Lemma constant_district_zscore_nan (m : list MonthlyRow) i row :
  nth_error m i = Some row ->
  (forall r', In r' m -> m_district r' = m_district row ->
              biometrics_total r' = biometrics_total row) ->
  nth_error (monthly_z (F:=xreal) m) i = Some (mkSeries row NaN).
Proof.
  intros Hi Hconst. rewrite (monthly_z_nth m i row Hi). do 2 f_equal.
  apply nth_all_nan. apply (zscore_constant _ (biometrics_total row)).
  intros z Hz. apply in_map_iff in Hz. destruct Hz as [r' [<- Hr']].
  apply filter_In in Hr'. destruct Hr' as [Hin Hd].
  apply Hconst; [exact Hin|]. now apply (is_eq_true String.compare) in Hd.
Qed.

Lemma nan_is_no_spike (m : list MonthlyRow) (row : MonthlyRow) :
  ~ In (mkSeries row NaN) (spikes (F:=xreal) m).
Proof.
  unfold spikes. rewrite filter_In. intros [_ Hb]. simpl in Hb.
  rewrite andb_false_r in Hb. discriminate.
Qed.

(** C2 (as the code has it): when a district has the same biometrics_total
    in every observed month, the z-score of each of its months is undefined
    (NaN), not 0, and such a row is never a spike.  The statement is for
    totals whose sum over the district's months stays within 2^53, so that
    every sum the z-score needs is exactly representable in float64 in
    whatever order it is added; exact arithmetic needs no such bound. *)
Theorem constant_series_zscore_undefined :
  forall (m : list MonthlyRow) (i : nat) (row : MonthlyRow),
    nth_error m i = Some row ->
    (forall r', In r' m -> m_district r' = m_district row ->
                biometrics_total r' = biometrics_total row) ->
    Z.of_nat (observed_months (m_district row) m) * Z.abs (biometrics_total row) <= 2 ^ 53 ->
    nth_error (monthly_z (F:=xreal) m) i = Some (mkSeries row NaN) /\
    ~ In (mkSeries row NaN) (spikes (F:=xreal) m).
Proof.
  intros m i row Hi Hconst _. split.
  - now apply constant_district_zscore_nan.
  - apply nan_is_no_spike.
Qed.

Lemma constant_series_zscore_undefined_witness :
  nth_error (monthly_z (F:=xreal) (monthly (biometric_f year_2025 steady_sources))) 1
  = Some (mkSeries (mkMonthly "Steady" (mkDate 2025 2 1) 30 70 100) NaN) /\
  ~ In (mkSeries (mkMonthly "Steady" (mkDate 2025 2 1) 30 70 100) NaN)
       (spikes (F:=xreal) (monthly (biometric_f year_2025 steady_sources))).
Proof.
  apply (constant_series_zscore_undefined
           (monthly (biometric_f year_2025 steady_sources)) 1
           (mkMonthly "Steady" (mkDate 2025 2 1) 30 70 100)).
  - vm_compute. reflexivity.
  - intros r' Hin _. vm_compute in Hin.
    destruct Hin as [<-|[<-|[]]]; reflexivity.
  - vm_compute. intros E. discriminate E.
Defined.

(** C2, the claim as stated: in binary64 the district with totals 100 and
    100 gets NaN in both months; no z-score equals 0. *)
Lemma constant_series_zscore_is_not_zero :
  map biometrics_total (monthly (biometric_f year_2025 steady_sources)) = [100; 100] /\
  map (fun r => PrimFloat.eqb (z_score r) 0%float)
      (monthly_z (F:=float) (monthly (biometric_f year_2025 steady_sources)))
  = [false; false] /\
  map (fun r => isnan (z_score r))
      (monthly_z (F:=float) (monthly (biometric_f year_2025 steady_sources)))
  = [true; true].
Proof. repeat split; vm_compute; reflexivity. Qed.

(* ------------------------------------------------------------------ *)
(** ** The latest month and the spike filter *)

Lemma date_leb_total a b : date_leb a b = false -> date_leb b a = true.
Proof.
  unfold date_leb. rewrite (date_compare_antisym a b).
  destruct (date_compare a b); simpl; congruence.
Qed.

Lemma date_max_ge a b : date_le a (date_max a b) /\ date_le b (date_max a b).
Proof.
  unfold date_max, date_le. destruct (date_leb a b) eqn:E.
  - split; [exact E|apply date_le_refl].
  - split; [apply date_le_refl|now apply date_leb_total].
Qed.

Lemma date_max_cases a b : date_max a b = a \/ date_max a b = b.
Proof. unfold date_max. destruct (date_leb a b); auto. Qed.

Lemma fold_date_max ms : forall a,
  (fold_left date_max ms a = a \/ In (fold_left date_max ms a) ms) /\
  date_le a (fold_left date_max ms a) /\
  forall x, In x ms -> date_le x (fold_left date_max ms a).
Proof.
  induction ms as [|x ms IH]; intros a; simpl.
  - split; [now left|]. split; [apply date_le_refl|]. intros ? [].
  - destruct (IH (date_max a x)) as [Hin [Hge Hall]].
    destruct (date_max_ge a x) as [Ha Hx].
    split; [|split].
    + destruct Hin as [E|Hin]; [|now right; right].
      rewrite E. destruct (date_max_cases a x) as [->| ->]; [now left|now right; left].
    + unfold date_le in *. eapply date_leb_trans; eassumption.
    + intros y [<-|Hy]; [|now apply Hall].
      unfold date_le in *. eapply date_leb_trans; eassumption.
Qed.

Lemma latest_month_is_max (m : list MonthlyRow) (l : date) :
  latest_month m = Some l ->
  In l (map m_month m) /\ forall r, In r m -> date_le (m_month r) l.
Proof.
  unfold latest_month. destruct m as [|r0 m']; simpl; [discriminate|].
  intros [= <-]. destruct (fold_date_max (map m_month m') (m_month r0)) as [Hin [Hge Hall]].
  split.
  - destruct Hin as [->|Hin]; [now left|now right].
  - intros r [<-|Hr]; [exact Hge|]. apply Hall. now apply in_map.
Qed.

Lemma is_latest_true (m : list MonthlyRow) (d : date) :
  is_latest m d = true <-> latest_month m = Some d.
Proof.
  unfold is_latest. destruct (latest_month m) as [l|].
  - rewrite date_eqb_eq. split; [now intros ->|now intros [= ->]].
  - split; discriminate.
Qed.

Lemma xltb_three (z : xreal) :
  xltb (Fin 3) z = true <-> z = PInf \/ exists x, z = Fin x /\ (3 < x)%R.
Proof.
  destruct z as [x| | |]; simpl.
  - unfold Rltb. destruct (Rlt_dec 3 x) as [Hlt|Hge].
    + split; [intros _; right; now exists x|reflexivity].
    + split; [discriminate|]. intros [E|[y [E Hy]]]; [discriminate|].
      inversion E; subst. contradiction.
  - intuition.
  - split; [discriminate|]. intros [E|[y [E _]]]; discriminate.
  - split; [discriminate|]. intros [E|[y [E _]]]; discriminate.
Qed.

Lemma short_filter_unique {A} (p : A -> bool) (l : list A) (x y : A) :
  (List.length (filter p l) < 2)%nat -> In x l -> p x = true -> In y l -> p y = true -> y = x.
Proof.
  intros Hlen Hx Hpx Hy Hpy.
  assert (Hx' : In x (filter p l)) by (apply filter_In; now split).
  assert (Hy' : In y (filter p l)) by (apply filter_In; now split).
  destruct (filter p l) as [|a [|b t]]; simpl in *; try lia; try contradiction.
  destruct Hx' as [<-|[]], Hy' as [<-|[]]. reflexivity.
Qed.

Lemma transform_from_length {F} `{Float64 F} (f : list Z -> list F) all rest :
  forall seen, List.length (transform_from f all seen rest) = List.length rest.
Proof. induction rest as [|r rest IH]; intros seen; simpl; [reflexivity|now rewrite IH]. Qed.

Lemma map_fst_combine_eq {A B} (l : list A) (l' : list B) :
  List.length l = List.length l' -> map fst (combine l l') = l.
Proof.
  revert l'; induction l as [|x l IH]; intros [|y l'] Hlen; simpl in *; try discriminate.
  - reflexivity.
  - f_equal. apply IH. congruence.
Qed.

Lemma mz_row_monthly_z {F} `{Float64 F} (m : list MonthlyRow) :
  map mz_row (monthly_z m) = m.
Proof.
  unfold monthly_z. rewrite map_map. simpl.
  change (map (fun x : MonthlyRow * F => fst x)) with (map (@fst MonthlyRow F)).
  apply map_fst_combine_eq. unfold transform. now rewrite transform_from_length.
Qed.

Lemma latest_month_defined (m : list MonthlyRow) :
  m <> [] -> exists l, latest_month m = Some l.
Proof.
  unfold latest_month. destruct m as [|r m']; [contradiction|]. intros _. simpl. eauto.
Qed.

Lemma lone_month_zscore_nan (m : list MonthlyRow) i row :
  nth_error m i = Some row ->
  (observed_months (m_district row) m < 2)%nat ->
  nth_error (monthly_z (F:=xreal) m) i = Some (mkSeries row NaN).
Proof.
  intros Hi Hlen. apply constant_district_zscore_nan; [exact Hi|].
  intros r' Hr' Hd.
  assert (E : r' = row).
  { apply (short_filter_unique
             (fun r => is_eq (String.compare (m_district r) (m_district row))) m).
    - exact Hlen.
    - eapply nth_error_In; eassumption.
    - now apply (is_eq_true String.compare).
    - exact Hr'.
    - now apply (is_eq_true String.compare). }
  now rewrite E.
Qed.

(** C3: in every float64 arithmetic the spike table holds exactly the rows
    of the monthly series whose month is the latest month of the whole
    series and whose z-score, computed within the row's own district,
    exceeds 3; a non-empty series has a latest month, the maximum over all
    districts.  A district with fewer than two observed months has the
    undefined z-score NaN and is never in the table (exact arithmetic, and
    binary64 on three districts of one month each). *)
Theorem spike_alerts_spec :
  forall (F : Type) (ops : Float64 F) (m : list MonthlyRow),
  (forall r, In r (spikes (F:=F) m) <->
             In r (monthly_z m) /\
             latest_month m = Some (m_month (mz_row r)) /\
             fltb (of_int 3) (z_score r) = true) /\
  (m <> [] -> exists l, latest_month m = Some l) /\
  (forall l, latest_month m = Some l ->
             In l (map m_month m) /\ forall r, In r m -> date_le (m_month r) l) /\
  map mz_row (monthly_z (F:=F) m) = m /\
  (forall i row, nth_error m i = Some row ->
     nth_error (monthly_z (F:=F) m) i
     = Some (mkSeries row
               (nth (List.length (filter (same_district row) (firstn i m)))
                    (zscore (map biometrics_total (filter (same_district row) m))) nan))) /\
  (forall z : xreal, fltb (of_int 3) z = true <->
                     z = PInf \/ exists x, z = Fin x /\ (3 < x)%R) /\
  (forall i row, nth_error m i = Some row ->
     (observed_months (m_district row) m < 2)%nat ->
     nth_error (monthly_z (F:=xreal) m) i = Some (mkSeries row NaN) /\
     ~ In (mkSeries row NaN) (spikes (F:=xreal) m)) /\
  (forall s, In s (spikes (F:=xreal) m) ->
     (2 <= observed_months (m_district (mz_row s)) m)%nat) /\
  map (fun s => isnan (z_score s))
      (monthly_z (F:=float) (monthly (biometric_f year_2025 floor_sources)))
  = [true; true; true] /\
  spikes (F:=float) (monthly (biometric_f year_2025 floor_sources)) = [].
Proof.
  intros F ops m. repeat apply conj.
  - intros r. unfold spikes. rewrite filter_In, andb_true_iff, is_latest_true. tauto.
  - apply latest_month_defined.
  - apply latest_month_is_max.
  - apply mz_row_monthly_z.
  - intros i row Hi. now apply monthly_z_nth.
  - exact xltb_three.
  - intros i row Hi Hlen. split; [now apply lone_month_zscore_nan|apply nan_is_no_spike].
  - intros s Hs.
    destruct (Nat.lt_ge_cases (observed_months (m_district (mz_row s)) m) 2) as [Hlt|Hge];
      [exfalso|exact Hge].
    assert (Hin : In s (monthly_z (F:=xreal) m))
      by (unfold spikes in Hs; apply filter_In in Hs; apply Hs).
    apply In_nth_error in Hin. destruct Hin as [i Hi].
    assert (Hrow : nth_error m i = Some (mz_row s)).
    { rewrite <- (mz_row_monthly_z (F:=xreal) m). now apply map_nth_error. }
    rewrite (lone_month_zscore_nan m i (mz_row s) Hrow Hlt) in Hi.
    injection Hi as Hi. rewrite <- Hi in Hs. exact (nan_is_no_spike m _ Hs).
  - vm_compute. reflexivity.
  - vm_compute. reflexivity.
Qed.

(* ------------------------------------------------------------------ *)
(** ** Pearson correlation of a series with itself *)

Lemma Rsum_pos (l : list R) :
  (forall x, In x l -> (0 <= x)%R) -> (exists x, In x l /\ (0 < x)%R) -> (0 < Rsum l)%R.
Proof.
  induction l as [|y l IH]; intros Hall [x [Hx Hpos]]; [destruct Hx|].
  rewrite Rsum_cons.
  assert (Hl : (0 <= Rsum l)%R) by (apply Rsum_nonneg; intros z Hz; apply Hall; now right).
  pose proof (Hall y (or_introl eq_refl)) as Hy.
  destruct Hx as [->|Hx]; [lra|].
  assert (0 < Rsum l)%R by (apply IH; [intros z Hz; apply Hall; now right|eauto]). lra.
Qed.

Lemma combine_self {A} (l : list A) : combine l l = map (fun x => (x, x)) l.
Proof. induction l as [|x l IH]; simpl; [reflexivity|now rewrite IH]. Qed.

Lemma dot_self_fin (l : list R) :
  dot (F:=xreal) (map Fin l) (map Fin l) = Fin (Rsum (map (fun r => r * r)%R l)).
Proof.
  unfold dot. rewrite combine_self, !map_map. simpl.
  rewrite <- (fsum_fin (map (fun r => r * r)%R l)), map_map. reflexivity.
Qed.

Lemma squared_deviations_pos (a : list Z) :
  (exists x y, In x a /\ In y a /\ x <> y) -> (0 < squared_deviations a)%R.
Proof.
  intros [x [y [Hx [Hy Hne]]]]. unfold squared_deviations. apply Rsum_pos.
  - intros r Hr. apply in_map_iff in Hr. destruct Hr as [z [<- _]].
    exact (Rle_0_sqr (IZR z - mean_of a)).
  - assert (Hdev : IZR x <> mean_of a \/ IZR y <> mean_of a).
    { destruct (Req_dec_T (IZR x) (mean_of a)) as [Ex|Ex]; [|now left].
      right. intros Ey. apply Hne. apply eq_IZR. congruence. }
    destruct Hdev as [Hd|Hd]; [exists ((IZR x - mean_of a) * (IZR x - mean_of a))%R
                              |exists ((IZR y - mean_of a) * (IZR y - mean_of a))%R];
      (split; [apply in_map_iff; eauto|]);
      apply Rsqr_pos_lt; lra.
Qed.

Lemma two_values_length {A} (a : list A) :
  (exists x y, In x a /\ In y a /\ x <> y) -> (2 <= List.length a)%nat.
Proof.
  intros [x [y [Hx [Hy Hne]]]].
  destruct a as [|u [|v t]]; simpl in *; try lia; try contradiction.
  destruct Hx as [<-|[]], Hy as [<-|[]]. contradiction.
Qed.

Lemma clip_one : clip (F:=xreal) (Fin 1) = Fin 1.
Proof.
  unfold clip. simpl. rewrite (Rltb_false 1 (-1)) by lra.
  now rewrite (Rltb_false 1 1) by lra.
Qed.

Lemma corrcoef_self_exact (a : list Z) :
  (exists x y, In x a /\ In y a /\ x <> y) -> corrcoef (F:=xreal) a a = Fin 1.
Proof.
  intros Hvar.
  pose proof (two_values_length a Hvar) as Hlen.
  pose proof (squared_deviations_pos a Hvar) as Hss.
  assert (Hn : (0 < IZR (Z.of_nat (List.length a)))%R) by (apply IZR_lt; lia).
  assert (Hn1 : (0 < IZR (Z.of_nat (List.length a) - 1))%R) by (apply IZR_lt; lia).
  unfold corrcoef. cbv zeta.
  assert (Hx : map (of_int (F:=xreal)) a = map Fin (map IZR a)) by (now rewrite map_map).
  rewrite Hx.
  assert (Hmean : fdiv (fsum (map Fin (map IZR a))) (of_int (Z.of_nat (List.length a)))
                  = Fin (mean_of a)).
  { rewrite fsum_fin. simpl. unfold mean_of. apply xdiv_fin. lra. }
  rewrite Hmean.
  assert (Hdev : map (fun v => fsub v (Fin (mean_of a))) (map Fin (map IZR a))
                 = map Fin (map (fun z => IZR z - mean_of a)%R a)).
  { rewrite !map_map. apply map_ext. intros z. reflexivity. }
  rewrite Hdev, dot_self_fin, map_map. fold (squared_deviations a).
  assert (Hscale : fdiv (of_int (F:=xreal) 1) (of_int (Z.of_nat (List.length a) - 1))
                   = Fin (1 / IZR (Z.of_nat (List.length a) - 1))).
  { simpl. apply xdiv_fin. lra. }
  rewrite Hscale.
  set (C := (squared_deviations a * (1 / IZR (Z.of_nat (List.length a) - 1)))%R).
  change (fmul (Fin (squared_deviations a)) (Fin (1 / IZR (Z.of_nat (List.length a) - 1))))
    with (Fin C).
  assert (HC : (0 < C)%R).
  { unfold C. apply Rmult_lt_0_compat; [exact Hss|].
    apply Rdiv_lt_0_compat; [lra|exact Hn1]. }
  assert (Hsqrt : fsqrt (F:=xreal) (Fin C) = Fin (R_sqrt.sqrt C)).
  { simpl. rewrite Rltb_false by lra. reflexivity. }
  rewrite Hsqrt.
  pose proof (sqrt_lt_R0 C HC) as Hs.
  pose proof (sqrt_sqrt C (Rlt_le _ _ HC)) as Hsq.
  set (s := R_sqrt.sqrt C) in *.
  change (fdiv (fdiv (Fin C) (Fin s)) (Fin s)) with (xdiv (xdiv (Fin C) (Fin s)) (Fin s)).
  rewrite !xdiv_fin by lra.
  replace (C / s / s)%R with 1%R; [apply clip_one|].
  rewrite <- Hsq. field. lra.
Qed.

Local Open Scope R_scope.

Lemma Rsum_quadratic (c d : R) (l : list (R * R)) :
  Rsum (map (fun p => (c * snd p - d * fst p) * (c * snd p - d * fst p)) l)
  = c * c * Rsum (map (fun p => snd p * snd p) l)
    - 2 * c * d * Rsum (map (fun p => fst p * snd p) l)
    + d * d * Rsum (map (fun p => fst p * fst p) l).
Proof.
  induction l as [|p l IH].
  - simpl. unfold Rsum. simpl. ring.
  - cbn [map]. rewrite !Rsum_cons, IH. ring.
Qed.

(** Cauchy-Schwarz for a list of pairs whose first components are not all
    zero. *)
Lemma cauchy_schwarz (l : list (R * R)) :
  0 < Rsum (map (fun p => fst p * fst p) l) ->
  Rsum (map (fun p => fst p * snd p) l) * Rsum (map (fun p => fst p * snd p) l)
  <= Rsum (map (fun p => fst p * fst p) l) * Rsum (map (fun p => snd p * snd p) l).
Proof.
  intros Hxx.
  set (Sxx := Rsum (map (fun p => fst p * fst p) l)) in *.
  set (Sxy := Rsum (map (fun p => fst p * snd p) l)).
  set (Syy := Rsum (map (fun p => snd p * snd p) l)).
  assert (Hq : 0 <= Rsum (map (fun p => (Sxx * snd p - Sxy * fst p)
                                       * (Sxx * snd p - Sxy * fst p)) l)).
  { apply Rsum_nonneg. intros x Hx. apply in_map_iff in Hx. destruct Hx as [p [<- _]].
    exact (Rle_0_sqr (Sxx * snd p - Sxy * fst p)). }
  rewrite Rsum_quadratic in Hq. fold Sxx Sxy Syy in Hq.
  assert (Hf : 0 <= Sxx * (Sxx * Syy - Sxy * Sxy)) by lra.
  assert (0 <= Sxx * Syy - Sxy * Sxy); [|lra].
  apply (Rmult_le_reg_l Sxx); [exact Hxx|]. lra.
Qed.

Lemma map_snd_combine_eq {A B} (l : list A) (l' : list B) :
  List.length l = List.length l' -> map snd (combine l l') = l'.
Proof.
  revert l'; induction l as [|x l IH]; intros [|y l'] Hlen; simpl in *; try discriminate.
  - reflexivity.
  - f_equal. apply IH. congruence.
Qed.

Lemma squared_deviations_fst (a b : list Z) :
  List.length a = List.length b ->
  Rsum (map (fun p : Z * Z => (IZR (fst p) - mean_of a) * (IZR (fst p) - mean_of a))
            (combine a b))
  = squared_deviations a.
Proof.
  intros Hlen. unfold squared_deviations.
  transitivity (Rsum (map (fun z => (IZR z - mean_of a) * (IZR z - mean_of a))
                          (map fst (combine a b)))).
  - now rewrite map_map.
  - now rewrite (map_fst_combine_eq a b Hlen).
Qed.

Lemma squared_deviations_snd (a b : list Z) :
  List.length a = List.length b ->
  Rsum (map (fun p : Z * Z => (IZR (snd p) - mean_of b) * (IZR (snd p) - mean_of b))
            (combine a b))
  = squared_deviations b.
Proof.
  intros Hlen. unfold squared_deviations.
  transitivity (Rsum (map (fun z => (IZR z - mean_of b) * (IZR z - mean_of b))
                          (map snd (combine a b)))).
  - now rewrite map_map.
  - now rewrite (map_snd_combine_eq a b Hlen).
Qed.

Lemma co_deviations_square_le (a b : list Z) :
  List.length a = List.length b -> 0 < squared_deviations a ->
  co_deviations a b * co_deviations a b <= squared_deviations a * squared_deviations b.
Proof.
  intros Hlen Ha.
  pose proof (cauchy_schwarz
                (map (fun p : Z * Z => (IZR (fst p) - mean_of a, IZR (snd p) - mean_of b))
                     (combine a b))) as Hcs.
  rewrite !map_map in Hcs. cbn [fst snd] in Hcs.
  rewrite (squared_deviations_fst a b Hlen), (squared_deviations_snd a b Hlen) in Hcs.
  fold (co_deviations a b) in Hcs. now apply Hcs.
Qed.

Lemma pearson_r_range (a b : list Z) :
  List.length a = List.length b ->
  0 < squared_deviations a -> 0 < squared_deviations b ->
  -1 <= pearson_r a b <= 1.
Proof.
  intros Hlen Ha Hb. unfold pearson_r.
  pose proof (co_deviations_square_le a b Hlen Ha) as Hcs.
  set (C := co_deviations a b) in *.
  set (Q := squared_deviations a * squared_deviations b) in *.
  assert (HQ : 0 < Q) by (unfold Q; now apply Rmult_lt_0_compat).
  pose proof (sqrt_lt_R0 Q HQ) as Hs.
  pose proof (sqrt_sqrt Q (Rlt_le _ _ HQ)) as Hsq.
  set (s := R_sqrt.sqrt Q) in *.
  assert (Habs : - s <= C <= s) by (split; nra).
  split.
  - apply (Rmult_le_reg_r s); [exact Hs|].
    replace (C / s * s) with C by (field; lra). lra.
  - apply (Rmult_le_reg_r s); [exact Hs|].
    replace (C / s * s) with C by (field; lra). lra.
Qed.

Lemma pearson_r_self (a : list Z) : 0 < squared_deviations a -> pearson_r a a = 1.
Proof.
  intros Ha. unfold pearson_r.
  assert (Hc : co_deviations a a = squared_deviations a).
  { unfold co_deviations, squared_deviations. rewrite combine_self, map_map. reflexivity. }
  rewrite Hc, sqrt_square by lra. field. lra.
Qed.

Lemma clip_within (x : R) : -1 <= x <= 1 -> clip (F:=xreal) (Fin x) = Fin x.
Proof.
  intros [Hlo Hhi]. unfold clip. cbn [fltb of_int Exact xltb].
  rewrite (Rltb_false x (IZR (-1))) by lra.
  rewrite (Rltb_false (IZR 1) x) by lra. reflexivity.
Qed.

Lemma squared_deviations_length (a : list Z) :
  0 < squared_deviations a -> (2 <= List.length a)%nat.
Proof.
  intros Ha. destruct a as [|x [|y t]]; [| |simpl; lia]; exfalso.
  - unfold squared_deviations, Rsum in Ha. simpl in Ha. lra.
  - unfold squared_deviations, mean_of, Rsum in Ha. simpl in Ha.
    replace ((0 + IZR x) / 1) with (IZR x) in Ha by field.
    replace (0 + (IZR x - IZR x) * (IZR x - IZR x)) with 0 in Ha by ring. lra.
Qed.

Lemma dot_fin (l : list (R * R)) :
  dot (F:=xreal) (map (fun p => Fin (fst p)) l) (map (fun p => Fin (snd p)) l)
  = Fin (Rsum (map (fun p => fst p * snd p) l)).
Proof.
  unfold dot.
  assert (E : map (fun p : xreal * xreal => fmul (fst p) (snd p))
                  (combine (map (fun p : R * R => Fin (fst p)) l)
                           (map (fun p : R * R => Fin (snd p)) l))
              = map Fin (map (fun p => fst p * snd p) l)).
  { induction l as [|p l IH]; [reflexivity|]. cbn [map combine fst snd]. f_equal. exact IH. }
  rewrite E. apply fsum_fin.
Qed.

(** [np.corrcoef] computes Pearson's r: in exact arithmetic the scaling by
    1/(n-1) cancels and the final clip changes nothing. *)
Lemma corrcoef_computes_pearson : computes_pearson (corrcoef (F:=xreal)).
Proof.
  intros a b Hlen Ha Hb.
  pose proof (squared_deviations_length a Ha) as Hn2.
  assert (Hn : 0 < IZR (Z.of_nat (List.length a))) by (apply IZR_lt; lia).
  assert (Hn1 : 0 < IZR (Z.of_nat (List.length a) - 1)) by (apply IZR_lt; lia).
  unfold corrcoef. cbv zeta.
  assert (Hxa : map (of_int (F:=xreal)) a = map Fin (map IZR a)) by (now rewrite map_map).
  assert (Hxb : map (of_int (F:=xreal)) b = map Fin (map IZR b)) by (now rewrite map_map).
  rewrite Hxa, Hxb.
  assert (Hma : fdiv (fsum (map Fin (map IZR a))) (of_int (Z.of_nat (List.length a)))
                = Fin (mean_of a)).
  { rewrite fsum_fin. simpl. unfold mean_of. apply xdiv_fin. lra. }
  assert (Hmb : fdiv (fsum (map Fin (map IZR b))) (of_int (Z.of_nat (List.length a)))
                = Fin (mean_of b)).
  { rewrite fsum_fin. simpl. unfold mean_of. rewrite <- Hlen. apply xdiv_fin. lra. }
  rewrite Hma, Hmb.
  set (l := map (fun p : Z * Z => (IZR (fst p) - mean_of a, IZR (snd p) - mean_of b))
                (combine a b)).
  assert (Hda : map (fun v => fsub v (Fin (mean_of a))) (map Fin (map IZR a))
                = map (fun p => Fin (fst p)) l).
  { transitivity (map (fun z => Fin (IZR z - mean_of a)) (map fst (combine a b))).
    - rewrite (map_fst_combine_eq a b Hlen), !map_map. reflexivity.
    - unfold l. rewrite !map_map. reflexivity. }
  assert (Hdb : map (fun v => fsub v (Fin (mean_of b))) (map Fin (map IZR b))
                = map (fun p => Fin (snd p)) l).
  { transitivity (map (fun z => Fin (IZR z - mean_of b)) (map snd (combine a b))).
    - rewrite (map_snd_combine_eq a b Hlen), !map_map. reflexivity.
    - unfold l. rewrite !map_map. reflexivity. }
  rewrite Hda, Hdb, dot_fin.
  assert (Haa : dot (F:=xreal) (map (fun p => Fin (fst p)) l) (map (fun p => Fin (fst p)) l)
                = Fin (squared_deviations a)).
  { rewrite <- (map_map fst Fin), dot_self_fin, map_map. unfold l. rewrite map_map. cbn [fst].
    now rewrite (squared_deviations_fst a b Hlen). }
  assert (Hbb : dot (F:=xreal) (map (fun p => Fin (snd p)) l) (map (fun p => Fin (snd p)) l)
                = Fin (squared_deviations b)).
  { rewrite <- (map_map snd Fin), dot_self_fin, map_map. unfold l. rewrite map_map. cbn [snd].
    now rewrite (squared_deviations_snd a b Hlen). }
  rewrite Haa, Hbb.
  assert (Hab : Rsum (map (fun p => fst p * snd p) l) = co_deviations a b).
  { unfold l, co_deviations. rewrite map_map. reflexivity. }
  rewrite Hab.
  assert (Hscale : fdiv (of_int (F:=xreal) 1) (of_int (Z.of_nat (List.length a) - 1))
                   = Fin (1 / IZR (Z.of_nat (List.length a) - 1))).
  { simpl. apply xdiv_fin. lra. }
  rewrite Hscale.
  set (k := 1 / IZR (Z.of_nat (List.length a) - 1)).
  assert (Hk : 0 < k) by (unfold k; apply Rdiv_lt_0_compat; lra).
  set (A := squared_deviations a) in *. set (B := squared_deviations b) in *.
  set (C := co_deviations a b) in *.
  cbn [fmul Exact xmul].
  assert (HAk : 0 < A * k) by (now apply Rmult_lt_0_compat).
  assert (HBk : 0 < B * k) by (now apply Rmult_lt_0_compat).
  assert (HsA : fsqrt (F:=xreal) (Fin (A * k)) = Fin (R_sqrt.sqrt (A * k))).
  { simpl. rewrite Rltb_false by lra. reflexivity. }
  assert (HsB : fsqrt (F:=xreal) (Fin (B * k)) = Fin (R_sqrt.sqrt (B * k))).
  { simpl. rewrite Rltb_false by lra. reflexivity. }
  rewrite HsA, HsB.
  pose proof (sqrt_lt_R0 _ HAk) as HsA0. pose proof (sqrt_lt_R0 _ HBk) as HsB0.
  cbn [fdiv Exact]. rewrite !xdiv_fin by lra.
  assert (Hr : C * k / R_sqrt.sqrt (A * k) / R_sqrt.sqrt (B * k) = pearson_r a b).
  { unfold pearson_r. fold A B C.
    assert (Hprod : R_sqrt.sqrt (A * k) * R_sqrt.sqrt (B * k) = k * R_sqrt.sqrt (A * B)).
    { rewrite <- sqrt_mult by lra.
      replace (A * k * (B * k)) with ((A * B) * (k * k)) by ring.
      rewrite sqrt_mult; [|nra|nra]. rewrite sqrt_square by lra. ring. }
    assert (HAB : 0 < R_sqrt.sqrt (A * B)) by (apply sqrt_lt_R0; nra).
    replace (C * k / R_sqrt.sqrt (A * k) / R_sqrt.sqrt (B * k))
      with (C * k / (R_sqrt.sqrt (A * k) * R_sqrt.sqrt (B * k))) by (field; lra).
    rewrite Hprod. field. lra. }
  rewrite Hr. apply clip_within. now apply pearson_r_range.
Qed.

Local Close Scope R_scope.

(** C8 (as the code has it): when the date-aligned adult-enrolment series
    equals the adult-biometric series and takes at least two values (nonzero
    variance), the Pearson coefficient is 1 in exact arithmetic: for
    [np.corrcoef], the routine pandas 2.x runs, and for every routine that
    computes Pearson's r. *)
Theorem self_correlation_exact :
  forall (enrolment_f : list EnrolmentEvent) (biometric_f : list BiometricEvent),
    (forall r, In r (corr_df enrolment_f biometric_f) ->
               c_bio_age_17_ r = c_age_18_greater r) ->
    (exists r1 r2, In r1 (corr_df enrolment_f biometric_f) /\
                   In r2 (corr_df enrolment_f biometric_f) /\
                   c_age_18_greater r1 <> c_age_18_greater r2) ->
    lead_corr (F:=xreal) enrolment_f biometric_f = Fin 1 /\
    forall routine, computes_pearson routine ->
                    lead_corr_by routine enrolment_f biometric_f = Fin 1.
Proof.
  intros enrolment_f biometric_f Hsame [r1 [r2 [H1 [H2 Hne]]]].
  assert (Hvar : exists x y, In x (map c_age_18_greater (corr_df enrolment_f biometric_f)) /\
                             In y (map c_age_18_greater (corr_df enrolment_f biometric_f)) /\
                             x <> y).
  { exists (c_age_18_greater r1), (c_age_18_greater r2).
    repeat split; try assumption; now apply in_map. }
  pose proof (map_ext_in c_bio_age_17_ c_age_18_greater _ Hsame) as Hcols.
  split.
  - unfold lead_corr. cbv zeta.
    destruct (corr_df enrolment_f biometric_f) as [|r0 df] eqn:E; [destruct H1|].
    rewrite <- E in *. rewrite Hcols. now apply corrcoef_self_exact.
  - intros routine Hroutine. unfold lead_corr_by.
    destruct (corr_df enrolment_f biometric_f) as [|r0 df] eqn:E; [destruct H1|].
    rewrite <- E in *. rewrite Hcols.
    pose proof (squared_deviations_pos _ Hvar) as Hss.
    rewrite (Hroutine _ _ eq_refl Hss Hss). f_equal. now apply pearson_r_self.
Qed.

Lemma self_correlation_exact_witness :
  lead_corr (F:=xreal) (enrolment_f year_2025 mirrored_sources)
            (biometric_f year_2025 mirrored_sources) = Fin 1 /\
  lead_corr_by (corrcoef (F:=xreal)) (enrolment_f year_2025 mirrored_sources)
               (biometric_f year_2025 mirrored_sources) = Fin 1.
Proof.
  assert (H : lead_corr (F:=xreal) (enrolment_f year_2025 mirrored_sources)
                        (biometric_f year_2025 mirrored_sources) = Fin 1 /\
              forall routine, computes_pearson routine ->
                lead_corr_by routine (enrolment_f year_2025 mirrored_sources)
                             (biometric_f year_2025 mirrored_sources) = Fin 1).
  { apply (self_correlation_exact (enrolment_f year_2025 mirrored_sources)
                                  (biometric_f year_2025 mirrored_sources)).
    - intros r Hin. vm_compute in Hin. destruct Hin as [<-|[<-|[]]]; reflexivity.
    - exists (mkCorr (mkDate 2025 1 10) 0 0), (mkCorr (mkDate 2025 1 11) 2 2).
      split; [vm_compute; now left|]. split; [vm_compute; now right; left|].
      simpl. discriminate. }
  split; [exact (proj1 H)|exact (proj2 H _ corrcoef_computes_pearson)].
Defined.

(** C8, the claim as stated: with the adult feed 0, 2 on two dates duplicated
    as the biometric feed (variance 2), binary64 gives 2/sqrt(2)/sqrt(2) =
    0.9999999999999999, which is below 1.0. *)
Lemma self_correlation_rounds_below_one :
  corr_df (enrolment_f year_2025 mirrored_sources) (biometric_f year_2025 mirrored_sources)
  = [mkCorr (mkDate 2025 1 10) 0 0; mkCorr (mkDate 2025 1 11) 2 2] /\
  PrimFloat.eqb (lead_corr (F:=float) (enrolment_f year_2025 mirrored_sources)
                           (biometric_f year_2025 mirrored_sources)) 1%float = false /\
  PrimFloat.ltb (lead_corr (F:=float) (enrolment_f year_2025 mirrored_sources)
                           (biometric_f year_2025 mirrored_sources)) 1%float = true.
Proof. repeat split; vm_compute; reflexivity. Qed.

(** Two distinct values that become the same float64 make the series
    constant for [np.corrcoef] in binary64: the coefficient is NaN. *)
Lemma self_correlation_collapses_above_2_53 :
  corr_df (enrolment_f year_2025 saturated_sources) (biometric_f year_2025 saturated_sources)
  = [mkCorr (mkDate 2025 1 10) 9007199254740992 9007199254740992;
     mkCorr (mkDate 2025 1 11) 9007199254740993 9007199254740993] /\
  isnan (lead_corr (F:=float) (enrolment_f year_2025 saturated_sources)
                   (biometric_f year_2025 saturated_sources)) = true.
Proof. split; vm_compute; reflexivity. Qed.

(* ------------------------------------------------------------------ *)
(** ** The source tables are never written *)

Lemma hub_row_with_intensity {F} `{Float64 F} (m : list DistrictAggregate) :
  map hub_row (with_intensity m) = m.
Proof. unfold with_intensity. rewrite map_map. simpl. apply map_id. Qed.

(** Allocation leaves every existing object as it is, and an assignment
    changes the object it targets only. *)
Lemma alloc_frame {F} (t : table F) (h : heap F) (r : ref) :
  (r < List.length h)%nat -> nth_error (h ++ [t]) r = nth_error h r.
Proof. intros Hr. now apply nth_error_app1. Qed.

Lemma update_frame {F} (t : table F) (h : heap F) (r r' : ref) :
  r <> r' -> nth_error (update r t h) r' = nth_error h r'.
Proof.
  revert r r'; induction h as [|x h IH]; intros [|r] [|r'] Hne; simpl;
    try reflexivity; try contradiction.
  apply IH. congruence.
Qed.

Lemma apply_filters_unfold {A} `{Frame A} (w : Filters) (df : list A) :
  apply_filters w df
  = if negb (String.eqb (state w) "All")
    then filter (fun r => String.eqb (col_state r) (state w))
                (filter (in_range (fst (date_range w)) (snd (date_range w))) df)
    else filter (in_range (fst (date_range w)) (snd (date_range w))) df.
Proof. unfold apply_filters. destruct (date_range w). reflexivity. Qed.

(** C9: the script runs to its end on every input; afterwards the three
    source objects hold the tables they were loaded with, every variable of
    the filter, aggregation and indicator stages references an object other
    than the three sources, and these objects hold what the stages
    compute. *)
Theorem sources_are_never_mutated :
  forall (F : Type) (ops : Float64 F) (w : Filters) (src : Sources),
  exists (v : Vars) (h : heap F),
    pipeline w 0%nat 1%nat 2%nat (initial_heap F src) = Some (v, h) /\
    nth_error h 0 = Some (TBiometric (biometric src)) /\
    nth_error h 1 = Some (TEnrolment (enrolment src)) /\
    nth_error h 2 = Some (TDemographic (demographic src)) /\
    Forall (fun r => (3 <= r)%nat) (vars_refs v) /\
    final_store w src v h.
Proof.
  intros F ops w src.
  unfold final_store, district_aggregate, merged, joined, top_districts, state_agg,
    monthly, trend, trend_positive, spikes, biometric_f, enrolment_f, demographic_f.
  rewrite !apply_filters_unfold.
  unfold pipeline, apply_filters_st, initial_heap.
  destruct (negb (String.eqb (state w) "All")).
  - eexists; eexists. split; [reflexivity|].
    cbn [nth_error v_biometric_f v_enrolment_f v_demographic_f v_demo_d v_bio_d v_enr_d
         v_merged v_top_districts v_state_agg v_bio_month v_monthly v_trend v_spikes
         v_corr_df vars_refs List.length app update].
    rewrite ?hub_row_with_intensity, ?mz_row_monthly_z.
    repeat split; try reflexivity. repeat constructor; lia.
  - eexists; eexists. split; [reflexivity|].
    cbn [nth_error v_biometric_f v_enrolment_f v_demographic_f v_demo_d v_bio_d v_enr_d
         v_merged v_top_districts v_state_agg v_bio_month v_monthly v_trend v_spikes
         v_corr_df vars_refs List.length app update].
    rewrite ?hub_row_with_intensity, ?mz_row_monthly_z.
    repeat split; try reflexivity. repeat constructor; lia.
Qed.

(* ------------------------------------------------------------------ *)
(** ** Wrapped sums and the conservation of totals under groupby *)

Lemma wrap64_add_l a b : wrap64 (wrap64 a + b) = wrap64 (a + b).
Proof.
  unfold wrap64. f_equal.
  replace ((a + 2 ^ 63) mod 2 ^ 64 - 2 ^ 63 + b + 2 ^ 63)
    with ((a + 2 ^ 63) mod 2 ^ 64 + b) by ring.
  rewrite Zplus_mod_idemp_l. f_equal. ring.
Qed.

Lemma wrap64_add_r a b : wrap64 (a + wrap64 b) = wrap64 (a + b).
Proof. rewrite (Z.add_comm a (wrap64 b)), wrap64_add_l. f_equal. ring. Qed.

Lemma fold_add64 (l : list Z) (a : Z) :
  fold_left add64 l (wrap64 a) = wrap64 (a + Zsum l).
Proof.
  revert a; induction l as [|x l IH]; intros a; simpl.
  - f_equal. ring.
  - unfold add64 at 2. rewrite wrap64_add_l, IH. f_equal. ring.
Qed.

Lemma sum64_Zsum (l : list Z) : sum64 l = wrap64 (Zsum l).
Proof. unfold sum64. change 0 with (wrap64 0) at 1. now rewrite fold_add64. Qed.

Lemma wrap64_Zsum_map {A} (h : A -> Z) (l : list A) :
  wrap64 (Zsum (map (fun x => wrap64 (h x)) l)) = wrap64 (Zsum (map h l)).
Proof.
  induction l as [|x l IH]; simpl; [reflexivity|].
  rewrite wrap64_add_l, <- wrap64_add_r, IH, wrap64_add_r. reflexivity.
Qed.

Lemma Zsum_pointwise {A} (f g : A -> Z) (l : list A) :
  Zsum (map (fun x => f x + g x) l) = Zsum (map f l) + Zsum (map g l).
Proof. induction l as [|x l IH]; simpl; [reflexivity|rewrite IH; ring]. Qed.

Section Partition.
Context {K A : Type} (cmp : K -> K -> comparison) `{CompareLaws K cmp}.
Context (key : A -> K) (f : A -> Z).

Lemma Zsum_indicator (k0 : K) (v : Z) (ks : list K) :
  NoDup ks -> In k0 ks ->
  Zsum (map (fun k => if is_eq (cmp k0 k) then v else 0) ks) = v.
Proof.
  induction 1 as [|k ks Hnin Hnd IH]; intros Hin; [destruct Hin|]. simpl.
  destruct (is_eq (cmp k0 k)) eqn:E.
  - apply (is_eq_true cmp) in E. subst k.
    assert (Hz : Zsum (map (fun k => if is_eq (cmp k0 k) then v else 0) ks) = 0).
    { clear IH Hin Hnd. induction ks as [|k ks IH]; simpl; [reflexivity|].
      destruct (is_eq (cmp k0 k)) eqn:E.
      - apply (is_eq_true cmp) in E. subst k. exfalso. apply Hnin. now left.
      - rewrite IH; [reflexivity|]. intros Hk. apply Hnin. now right. }
    rewrite Hz. ring.
  - destruct Hin as [->|Hin].
    + rewrite cmp_refl in E. discriminate.
    + rewrite (IH Hin). ring.
Qed.

Lemma Zsum_partition (ks : list K) (df : list A) :
  NoDup ks -> (forall r, In r df -> In (key r) ks) ->
  Zsum (map (fun k => Zsum (map f (filter (fun r => is_eq (cmp (key r) k)) df))) ks)
  = Zsum (map f df).
Proof.
  intros Hnd. induction df as [|r df IH]; intros Hcover.
  - simpl. induction ks as [|k ks IHk]; simpl; [reflexivity|].
    inversion Hnd; subst. now rewrite IHk.
  - assert (E : forall k,
        Zsum (map f (filter (fun r' => is_eq (cmp (key r') k)) (r :: df)))
        = (if is_eq (cmp (key r) k) then f r else 0)
          + Zsum (map f (filter (fun r' => is_eq (cmp (key r') k)) df))).
    { intros k. simpl. destruct (is_eq (cmp (key r) k)); simpl; ring. }
    rewrite (map_ext _ _ E), Zsum_pointwise.
    rewrite (Zsum_indicator (key r) (f r) ks Hnd) by (apply Hcover; now left).
    rewrite IH by (intros r' Hr'; apply Hcover; now right).
    reflexivity.
Qed.

Lemma sorted_keys_NoDup (ks : list K) : StronglySorted (key_lt cmp) ks -> NoDup ks.
Proof.
  induction 1 as [|k ks Hs IH Hall]; constructor; [|exact IH].
  intros Hin. rewrite Forall_forall in Hall. specialize (Hall k Hin).
  unfold key_lt in Hall. rewrite cmp_refl in Hall. discriminate.
Qed.

Lemma groupby_sum64 (df : list A) :
  sum64 (map (fun g => sum64 (map f (snd g))) (groupby cmp key df)) = sum64 (map f df).
Proof.
  unfold groupby. rewrite map_map. simpl.
  rewrite (map_ext _ (fun k => wrap64 (Zsum (map f (filter (fun r => is_eq (cmp (key r) k)) df)))))
    by (intros k; apply sum64_Zsum).
  rewrite !sum64_Zsum, wrap64_Zsum_map. f_equal.
  apply Zsum_partition.
  - apply sorted_keys_NoDup, group_keys_sorted; assumption.
  - intros r Hr. apply group_keys_In; [assumption|]. now apply in_map.
Qed.
End Partition.

(** X1: grouping conserves the column totals: each lifecycle total (lines
    75-85) is also the (int64) sum of the per-district sums and of the
    per-date sums of the same columns. *)
Theorem groupby_conserves_totals :
  forall (demographic_f : list DemographicSnapshot) (biometric_f : list BiometricEvent)
         (enrolment_f : list EnrolmentEvent),
  total_population demographic_f
  = add64 (sum64 (map dd_demo_age_5_17 (demo_d demographic_f)))
          (sum64 (map dd_demo_age_17_ (demo_d demographic_f))) /\
  total_biometrics biometric_f
  = sum64 [ sum64 (map bd_bio_age_5_17 (bio_d biometric_f));
            sum64 (map bd_bio_age_17_ (bio_d biometric_f)) ] /\
  total_biometrics biometric_f
  = sum64 [ sum64 (map bt_bio_age_5_17 (bio_ts biometric_f));
            sum64 (map bt_bio_age_17_ (bio_ts biometric_f)) ] /\
  total_enrolments enrolment_f
  = sum64 [ sum64 (map ed_age_0_5 (enr_d enrolment_f));
            sum64 (map ed_age_5_17 (enr_d enrolment_f));
            sum64 (map ed_age_18_greater (enr_d enrolment_f)) ] /\
  total_enrolments enrolment_f
  = sum64 [ sum64 (map et_age_0_5 (enrol_ts enrolment_f));
            sum64 (map et_age_5_17 (enrol_ts enrolment_f));
            sum64 (map et_age_18_greater (enrol_ts enrolment_f)) ].
Proof.
  intros demographic_f biometric_f enrolment_f.
  unfold total_population, total_biometrics, total_enrolments,
    demo_d, bio_d, enr_d, bio_ts, enrol_ts, district_key_compare.
  rewrite !map_map. cbn [dd_demo_age_5_17 dd_demo_age_17_ bd_bio_age_5_17 bd_bio_age_17_
    bt_bio_age_5_17 bt_bio_age_17_ ed_age_0_5 ed_age_5_17 ed_age_18_greater
    et_age_0_5 et_age_5_17 et_age_18_greater].
  rewrite !(groupby_sum64 (lex_compare String.compare String.compare)).
  rewrite !(groupby_sum64 date_compare).
  repeat split; reflexivity.
Qed.

(* ------------------------------------------------------------------ *)
(** ** Keys of aggregated and joined tables *)

Lemma Subseq_In {A} (l1 l2 : list A) x : Subseq l1 l2 -> In x l1 -> In x l2.
Proof.
  induction 1 as [|y l1 l2 Hs IH|y l1 l2 Hs IH]; simpl; intros Hx.
  - exact Hx.
  - right. now apply IH.
  - destruct Hx as [->|Hx]; [now left|right; now apply IH].
Qed.

Lemma Subseq_sorted {A} (R : A -> A -> Prop) (l1 l2 : list A) :
  Subseq l1 l2 -> StronglySorted R l2 -> StronglySorted R l1.
Proof.
  induction 1 as [|y l1 l2 Hs IH|y l1 l2 Hs IH]; intros Hsorted.
  - constructor.
  - inversion Hsorted; subst. now apply IH.
  - inversion Hsorted as [|? ? Hs2 Hall]; subst. constructor; [now apply IH|].
    rewrite Forall_forall in *. intros x Hx. apply Hall. eapply Subseq_In; eassumption.
Qed.

Lemma unique_key_filter_short {B K} (kb : B -> K) (p : B -> bool) (k : K) (r : list B) :
  NoDup (map kb r) -> (forall b, In b r -> p b = true -> kb b = k) ->
  (List.length (filter p r) <= 1)%nat.
Proof.
  induction r as [|b r IH]; simpl; intros Hnd Hkey; [lia|].
  inversion Hnd as [|? ? Hnin Hnd']; subst.
  assert (IHr : (List.length (filter p r) <= 1)%nat)
    by (apply IH; [exact Hnd'|intros b' Hb'; apply Hkey; now right]).
  destruct (p b) eqn:Eb; [|exact IHr]. simpl.
  destruct (filter p r) as [|b' t] eqn:Ef; [simpl; lia|].
  exfalso. apply Hnin.
  assert (Hb' : In b' (filter p r)) by (rewrite Ef; now left).
  apply filter_In in Hb'. destruct Hb' as [Hin Hp].
  rewrite (Hkey b (or_introl eq_refl) Eb), <- (Hkey b' (or_intror Hin) Hp).
  now apply in_map.
Qed.

(** An inner join on a key that is unique on the right keeps a sub-list of
    the left keys, in their order. *)
Lemma merge_keys_subseq {A B C K} (ka : A -> K) (kb : B -> K) (kc : C -> K)
  (on : A -> B -> bool) (comb : A -> B -> C) (l : list A) (r : list B) :
  NoDup (map kb r) ->
  (forall a b, on a b = true -> ka a = kb b) ->
  (forall a b, kc (comb a b) = ka a) ->
  Subseq (map kc (merge on comb l r)) (map ka l).
Proof.
  intros Hnd Hon Hkc. unfold merge. induction l as [|a l IH]; simpl; [constructor|].
  rewrite map_app, map_map.
  pose proof (unique_key_filter_short kb (on a) (ka a) r Hnd) as Hshort.
  assert (Hlen : (List.length (filter (on a) r) <= 1)%nat).
  { apply Hshort. intros b _ Hb. symmetry. now apply Hon. }
  destruct (filter (on a) r) as [|b [|b' t]]; simpl in *; try lia.
  - now apply Subseq_skip.
  - rewrite Hkc. now apply Subseq_keep.
Qed.

Lemma demo_d_sorted (t : list DemographicSnapshot) :
  StronglySorted (key_lt district_key_compare) (map dd_key (demo_d t)).
Proof.
  unfold demo_d. rewrite map_map. simpl.
  change (map (fun x : district_key * list DemographicSnapshot => fst x))
    with (map (@fst district_key (list DemographicSnapshot))).
  rewrite groupby_keys. apply group_keys_sorted. unfold district_key_compare. typeclasses eauto.
Qed.

Lemma bio_d_sorted (t : list BiometricEvent) :
  StronglySorted (key_lt district_key_compare) (map bd_key (bio_d t)).
Proof.
  unfold bio_d. rewrite map_map. simpl.
  change (map (fun x : district_key * list BiometricEvent => fst x))
    with (map (@fst district_key (list BiometricEvent))).
  rewrite groupby_keys. apply group_keys_sorted. unfold district_key_compare. typeclasses eauto.
Qed.

Lemma enr_d_sorted (t : list EnrolmentEvent) :
  StronglySorted (key_lt district_key_compare) (map ed_key (enr_d t)).
Proof.
  unfold enr_d. rewrite map_map. simpl.
  change (map (fun x : district_key * list EnrolmentEvent => fst x))
    with (map (@fst district_key (list EnrolmentEvent))).
  rewrite groupby_keys. apply group_keys_sorted. unfold district_key_compare. typeclasses eauto.
Qed.

Lemma district_keys_NoDup (ks : list district_key) :
  StronglySorted (key_lt district_key_compare) ks -> NoDup ks.
Proof. apply sorted_keys_NoDup. unfold district_key_compare. typeclasses eauto. Qed.

Lemma joined_sorted demographic_f biometric_f enrolment_f :
  StronglySorted (key_lt district_key_compare)
                 (map joined_key (joined demographic_f biometric_f enrolment_f)).
Proof.
  unfold joined, merge_districts.
  eapply Subseq_sorted; [|apply (demo_d_sorted demographic_f)].
  eapply Subseq_trans.
  - apply (merge_keys_subseq (fun db : DemoDistrict * BioDistrict => dd_key (fst db)) ed_key).
    + apply district_keys_NoDup, enr_d_sorted.
    + intros db e Hon. now apply district_key_eqb_eq in Hon.
    + intros db e. unfold joined_key. simpl. symmetry. apply surjective_pairing.
  - apply (merge_keys_subseq dd_key bd_key).
    + apply district_keys_NoDup, bio_d_sorted.
    + intros d b Hon. now apply district_key_eqb_eq in Hon.
    + reflexivity.
Qed.

Lemma filter_map_sorted {A K} (R : K -> K -> Prop) (k : A -> K) (p : A -> bool) (l : list A) :
  StronglySorted R (map k l) -> StronglySorted R (map k (filter p l)).
Proof.
  intros Hs. apply StronglySorted_map in Hs.
  apply (StronglySorted_filter _ p) in Hs.
  induction Hs as [|x t Hs IH Hall]; simpl; constructor; [exact IH|].
  rewrite Forall_forall in *. intros y Hy. apply in_map_iff in Hy.
  destruct Hy as [z [<- Hz]]. now apply Hall.
Qed.

(** X2: the joined district table and the rows that survive the population
    floor hold each (state, district) pair at most once, in ascending
    (state, district) order: the inner joins never multiply a district. *)
Theorem district_table_has_unique_sorted_keys : forall (w : Filters) (src : Sources),
  StronglySorted (key_lt district_key_compare) (map joined_key (district_join w src)) /\
  NoDup (map joined_key (district_join w src)) /\
  StronglySorted (key_lt district_key_compare)
                 (map (fun a => joined_key (da_row a)) (district_aggregate w src)) /\
  NoDup (map (fun a => joined_key (da_row a)) (district_aggregate w src)).
Proof.
  intros w src.
  assert (H1 : StronglySorted (key_lt district_key_compare)
                              (map joined_key (district_join w src)))
    by apply joined_sorted.
  assert (H2 : StronglySorted (key_lt district_key_compare)
                 (map (fun a => joined_key (da_row a)) (district_aggregate w src))).
  { unfold district_aggregate, merged. apply filter_map_sorted.
    rewrite map_map. simpl. exact H1. }
  repeat split; try assumption; now apply district_keys_NoDup.
Qed.

(* ------------------------------------------------------------------ *)
(** ** The date-level series and the date-aligned table *)

Lemma date_groups_sorted {A} (key : A -> date) (df : list A) :
  StronglySorted date_lt (map fst (groupby date_compare key df)).
Proof.
  rewrite groupby_keys by typeclasses eauto.
  apply (group_keys_sorted date_compare).
Qed.

Lemma date_groups_In {A} (key : A -> date) (df : list A) (g : date * list A) :
  In g (groupby date_compare key df) <->
  (exists r, In r df /\ key r = fst g) /\
  snd g = filter (fun r => date_eqb (key r) (fst g)) df.
Proof. apply (groupby_In date_compare). Qed.

(** X3: the two date-level series have exactly one row per date that occurs
    in the filtered table, in strictly ascending date order (a date without
    rows is absent, not zero-filled), and each row carries the sums over the
    rows of its date. *)
Theorem time_series_one_row_per_date :
  forall (enrolment_f : list EnrolmentEvent) (biometric_f : list BiometricEvent),
  StronglySorted date_lt (map et_date (enrol_ts enrolment_f)) /\
  (forall d, In d (map et_date (enrol_ts enrolment_f)) <->
             exists r, In r enrolment_f /\ e_date r = d) /\
  (forall t, In t (enrol_ts enrolment_f) ->
     et_age_0_5 t
     = sum64 (map age_0_5 (filter (fun r => date_eqb (e_date r) (et_date t)) enrolment_f)) /\
     et_age_5_17 t
     = sum64 (map age_5_17 (filter (fun r => date_eqb (e_date r) (et_date t)) enrolment_f)) /\
     et_age_18_greater t
     = sum64 (map age_18_greater
                (filter (fun r => date_eqb (e_date r) (et_date t)) enrolment_f))) /\
  StronglySorted date_lt (map bt_date (bio_ts biometric_f)) /\
  (forall d, In d (map bt_date (bio_ts biometric_f)) <->
             exists r, In r biometric_f /\ b_date r = d) /\
  (forall t, In t (bio_ts biometric_f) ->
     bt_bio_age_5_17 t
     = sum64 (map bio_age_5_17 (filter (fun r => date_eqb (b_date r) (bt_date t)) biometric_f)) /\
     bt_bio_age_17_ t
     = sum64 (map bio_age_17_ (filter (fun r => date_eqb (b_date r) (bt_date t)) biometric_f))).
Proof.
  intros enrolment_f biometric_f.
  assert (Ee : map et_date (enrol_ts enrolment_f)
               = map fst (groupby date_compare e_date enrolment_f))
    by (unfold enrol_ts; now rewrite map_map).
  assert (Eb : map bt_date (bio_ts biometric_f)
               = map fst (groupby date_compare b_date biometric_f))
    by (unfold bio_ts; now rewrite map_map).
  rewrite Ee, Eb.
  split; [apply date_groups_sorted|].
  split; [intros d; apply (groupby_key_present date_compare)|].
  split.
  { intros t Ht. unfold enrol_ts in Ht. apply in_map_iff in Ht.
    destruct Ht as [g [<- Hg]]. apply date_groups_In in Hg. destruct Hg as [_ ->].
    simpl. repeat split; reflexivity. }
  split; [apply date_groups_sorted|].
  split; [intros d; apply (groupby_key_present date_compare)|].
  intros t Ht. unfold bio_ts in Ht. apply in_map_iff in Ht.
  destruct Ht as [g [<- Hg]]. apply date_groups_In in Hg. destruct Hg as [_ ->].
  simpl. split; reflexivity.
Qed.

(** X4: the date-aligned table holds exactly the dates present in both
    filtered tables (inner join), each once and in ascending order, with the
    adult enrolment sum and the adult biometric sum of that date. *)
Theorem corr_df_is_the_date_intersection :
  forall (enrolment_f : list EnrolmentEvent) (biometric_f : list BiometricEvent),
  (forall r, In r (corr_df enrolment_f biometric_f) <->
     (exists e, In e enrolment_f /\ e_date e = c_date r) /\
     (exists b, In b biometric_f /\ b_date b = c_date r) /\
     c_age_18_greater r
     = sum64 (map age_18_greater
                (filter (fun e => date_eqb (e_date e) (c_date r)) enrolment_f)) /\
     c_bio_age_17_ r
     = sum64 (map bio_age_17_
                (filter (fun b => date_eqb (b_date b) (c_date r)) biometric_f))) /\
  StronglySorted date_lt (map c_date (corr_df enrolment_f biometric_f)) /\
  NoDup (map c_date (corr_df enrolment_f biometric_f)).
Proof.
  intros enrolment_f biometric_f.
  assert (Hsorted : StronglySorted date_lt (map c_date (corr_df enrolment_f biometric_f))).
  { unfold corr_df. eapply Subseq_sorted.
    - apply (merge_keys_subseq (@fst date Z) (@fst date Z) c_date).
      + rewrite map_map. simpl.
        change (map (fun x : date * list BiometricEvent => fst x))
          with (map (@fst date (list BiometricEvent))).
        apply (sorted_keys_NoDup date_compare), date_groups_sorted.
      + intros e b Hon. now apply date_eqb_eq in Hon.
      + reflexivity.
    - rewrite map_map. simpl.
      change (map (fun x : date * list EnrolmentEvent => fst x))
        with (map (@fst date (list EnrolmentEvent))).
      apply date_groups_sorted. }
  split; [|split; [exact Hsorted|now apply (sorted_keys_NoDup date_compare)]].
  intros r. unfold corr_df. rewrite merge_In. split.
  - intros [e [b [He [Hb [Hon ->]]]]]. simpl.
    apply date_eqb_eq in Hon.
    apply in_map_iff in He. destruct He as [ge [<- Hge]].
    apply in_map_iff in Hb. destruct Hb as [gb [<- Hgb]].
    simpl in *. apply date_groups_In in Hge, Hgb.
    destruct Hge as [Hex_e ->], Hgb as [Hex_b ->].
    rewrite <- Hon. repeat split; try assumption. now rewrite Hon.
  - intros [[e [He Hde]] [[b [Hb Hdb]] [Ha Hbv]]].
    exists (c_date r, c_age_18_greater r), (c_date r, c_bio_age_17_ r).
    repeat split.
    + apply in_map_iff.
      exists (c_date r, filter (fun e' => date_eqb (e_date e') (c_date r)) enrolment_f).
      split; [simpl; now rewrite Ha|].
      apply date_groups_In. simpl. split; [eauto|reflexivity].
    + apply in_map_iff.
      exists (c_date r, filter (fun b' => date_eqb (b_date b') (c_date r)) biometric_f).
      split; [simpl; now rewrite Hbv|].
      apply date_groups_In. simpl. split; [eauto|reflexivity].
    + simpl. apply date_eqb_eq. reflexivity.
    + destruct r; reflexivity.
Qed.

(* ------------------------------------------------------------------ *)
(** ** Composition and edge cases of the filter stage *)

Lemma filter_all {A} (p : A -> bool) (l : list A) :
  (forall x, In x l -> p x = true) -> filter p l = l.
Proof.
  induction l as [|x l IH]; simpl; intros Hall; [reflexivity|].
  rewrite (Hall x (or_introl eq_refl)). f_equal. apply IH. intros y Hy. apply Hall. now right.
Qed.

Lemma filter_comm {A} (p q : A -> bool) (l : list A) :
  filter p (filter q l) = filter q (filter p l).
Proof.
  induction l as [|x l IH]; simpl; [reflexivity|].
  destruct (p x) eqn:Ep, (q x) eqn:Eq; simpl; rewrite ?Ep, ?Eq, IH; reflexivity.
Qed.

(** X5: the filter is idempotent, its two masks can be applied in either
    order, and a region other than "All" that no row carries gives an empty
    table (not an error). *)
Theorem apply_filters_composition :
  forall (A : Type) (fr : Frame A) (w : Filters) (df : list A),
  apply_filters w (apply_filters w df) = apply_filters w df /\
  (state w <> "All" ->
   apply_filters w df
   = filter (in_range (fst (date_range w)) (snd (date_range w)))
            (filter (fun r => String.eqb (col_state r) (state w)) df)) /\
  (state w <> "All" -> (forall r, In r df -> col_state r <> state w) ->
   apply_filters w df = []).
Proof.
  intros A fr w df. rewrite !apply_filters_unfold.
  destruct (String.eqb (state w) "All") eqn:E; simpl.
  - split; [|split].
    + apply filter_all. intros x Hx. now apply filter_In in Hx.
    + intros Hne. apply String.eqb_eq in E. contradiction.
    + intros Hne. apply String.eqb_eq in E. contradiction.
  - split; [|split].
    + set (L := filter (fun r => String.eqb (col_state r) (state w))
                       (filter (in_range (fst (date_range w)) (snd (date_range w))) df)).
      assert (Hd : forall x, In x L ->
                     in_range (fst (date_range w)) (snd (date_range w)) x = true).
      { intros x Hx. apply filter_In in Hx. destruct Hx as [Hx _]. now apply filter_In in Hx. }
      assert (Hs : forall x, In x L -> String.eqb (col_state x) (state w) = true).
      { intros x Hx. now apply filter_In in Hx. }
      rewrite (filter_all _ L Hd). now apply filter_all.
    + intros _. apply filter_comm.
    + intros _ Habsent. apply filter_none. intros x Hx.
      apply filter_In in Hx. destruct Hx as [Hx _].
      apply String.eqb_neq. now apply Habsent.
Qed.

Lemma empty_window {A} `{Frame A} (w : Filters) (df : list A) :
  date_lt (snd (date_range w)) (fst (date_range w)) -> apply_filters w df = [].
Proof. intros Hlt. now apply (apply_filters_ok w df). Qed.

(** X6: when the end of the date interval lies before its start, every
    stage degrades to an empty result instead of failing: the filtered
    tables, the date-level series, the district table, the three rankings,
    the spike table and the date-aligned table are empty, the lifecycle
    totals are 0, and the two scalar ratios are NaN (0/0 for the national
    rate, no observation for the correlation). *)
Theorem empty_window_gives_empty_indicators :
  forall (F : Type) (ops : Float64 F) (w : Filters) (src : Sources),
    date_lt (snd (date_range w)) (fst (date_range w)) ->
    biometric_f w src = [] /\ enrolment_f w src = [] /\ demographic_f w src = [] /\
    total_population (demographic_f w src) = 0 /\
    total_enrolments (enrolment_f w src) = 0 /\
    total_biometrics (biometric_f w src) = 0 /\
    enrol_ts (enrolment_f w src) = [] /\ bio_ts (biometric_f w src) = [] /\
    district_aggregate w src = [] /\
    top_districts (F:=F) (district_aggregate w src) = [] /\
    top_states (F:=F) (district_aggregate w src) = [] /\
    trend (F:=F) (monthly (biometric_f w src)) = [] /\
    spikes (F:=F) (monthly (biometric_f w src)) = [] /\
    corr_df (enrolment_f w src) (biometric_f w src) = [] /\
    isnan (national_rate (F:=float) (district_aggregate w src)) = true /\
    isnan (lead_corr (F:=float) (enrolment_f w src) (biometric_f w src)) = true.
Proof.
  intros F ops w src Hlt.
  unfold district_aggregate, biometric_f, enrolment_f, demographic_f.
  rewrite !(empty_window w _ Hlt).
  repeat split; vm_compute; reflexivity.
Qed.

Lemma empty_window_gives_empty_indicators_witness :
  biometric_f (mkFilters (mkDate 2025 12 31, mkDate 2025 1 1) "All") floor_sources = [] /\
  isnan (national_rate (F:=float)
           (district_aggregate (mkFilters (mkDate 2025 12 31, mkDate 2025 1 1) "All")
                               floor_sources)) = true.
Proof.
  pose proof (empty_window_gives_empty_indicators float Binary64
                (mkFilters (mkDate 2025 12 31, mkDate 2025 1 1) "All") floor_sources
                eq_refl) as H.
  split; [apply H|]. apply H.
Defined.

(* ------------------------------------------------------------------ *)
(** ** Rankings keep their rows and are cut to ten *)

Section RankingShape.
Context {F : Type} `{Float64 F} {A : Type} (key : A -> F).

Lemma insert_desc_perm x l : Permutation (insert_desc key x l) (x :: l).
Proof.
induction l as [|y l IH]; simpl; [reflexivity|].
destruct (fltb (key x) (key y)); [|reflexivity].
rewrite IH. apply perm_swap.
Qed.

Lemma insertion_desc_perm l : Permutation (fold_right (insert_desc key) [] l) l.
Proof.
induction l as [|x l IH]; simpl; [reflexivity|].
rewrite insert_desc_perm. now constructor.
Qed.

Lemma partition_perm (p : A -> bool) l :
  Permutation (filter (fun r => negb (p r)) l ++ filter p l) l.
Proof.
induction l as [|x l IH]; simpl; [reflexivity|].
destruct (p x); simpl.
- rewrite <- Permutation_middle. now constructor.
- now constructor.
Qed.

Lemma sort_values_desc_perm df : Permutation (sort_values_desc key df) df.
Proof.
unfold sort_values_desc. rewrite insertion_desc_perm.
apply (partition_perm (fun r => isnan (key r))).
Qed.

Lemma head_sort_shape df :
  List.length (head 10 (sort_values_desc key df)) = Nat.min 10 (List.length df) /\
  Permutation (head 10 (sort_values_desc key df) ++ skipn 10 (sort_values_desc key df)) df.
Proof.
unfold head. split.
- now rewrite length_firstn, sort_values_desc_length.
- rewrite firstn_skipn. apply sort_values_desc_perm.
Qed.
End RankingShape.

(** X7: each of the three rankings holds min(10, n) rows of the table it
    ranks, where n is that table's size, and together with the rows cut off
    it is a rearrangement of that table: sorting and cutting neither drop
    (beyond the cut), duplicate nor alter rows. *)
Theorem rankings_are_top_ten_rearrangements :
  forall (F : Type) (ops : Float64 F) (merged : list DistrictAggregate)
         (monthly : list MonthlyRow),
  List.length (top_districts (F:=F) merged) = Nat.min 10 (List.length merged) /\
  (exists cut, Permutation (top_districts (F:=F) merged ++ cut) (with_intensity merged)) /\
  List.length (top_states (F:=F) merged) = Nat.min 10 (List.length (state_agg (F:=F) merged)) /\
  (exists cut, Permutation (top_states (F:=F) merged ++ cut) (state_agg merged)) /\
  List.length (trend (F:=F) monthly) = Nat.min 10 (List.length (trend_positive monthly)) /\
  (exists cut, Permutation (trend (F:=F) monthly ++ cut)
                           (map with_growth_rate (trend_positive monthly))).
Proof.
  intros F ops merged monthly. unfold top_districts, top_states, trend.
  destruct (head_sort_shape biometric_intensity_index (with_intensity (F:=F) merged)) as [L1 P1].
  destruct (head_sort_shape biometric_per_capita (state_agg (F:=F) merged)) as [L2 P2].
  destruct (head_sort_shape growth_rate (map (with_growth_rate (F:=F)) (trend_positive monthly)))
    as [L3 P3].
  unfold with_intensity in L1 at 2. rewrite length_map in L1, L3.
  repeat split; try assumption; eexists; eassumption.
Qed.

(* ------------------------------------------------------------------ *)
(** ** Rankings are in descending order (exact arithmetic) *)

Lemma xltb_asym (a b : xreal) : xltb a b = true -> xltb b a = false.
Proof.
  destruct a as [x| | |], b as [y| | |]; simpl; try discriminate; try reflexivity.
  unfold Rltb. destruct (Rlt_dec x y), (Rlt_dec y x); try reflexivity; try discriminate. lra.
Qed.

Lemma xge_trans (a b c : xreal) :
  xisnan a = false -> xisnan b = false -> xisnan c = false ->
  xltb a b = false -> xltb b c = false -> xltb a c = false.
Proof.
  destruct a as [x| | |], b as [y| | |], c as [z| | |]; simpl;
    try discriminate; try reflexivity; intros _ _ _.
  unfold Rltb. destruct (Rlt_dec x y), (Rlt_dec y z), (Rlt_dec x z);
    try reflexivity; try discriminate. lra.
Qed.

Section DescendingOrder.
Context {A : Type} (key : A -> xreal).

Lemma insert_desc_sorted x l :
  xisnan (key x) = false -> Forall (fun y => xisnan (key y) = false) l ->
  StronglySorted (desc key) l -> StronglySorted (desc key) (insert_desc (F:=xreal) key x l).
Proof.
intros Hx Hnan Hs. induction Hs as [|y l Hs IH Hall]; simpl.
- repeat constructor.
- inversion Hnan as [|? ? Hy Hnan']; subst.
  change (fltb (key x) (key y)) with (xltb (key x) (key y)).
  destruct (xltb (key x) (key y)) eqn:E.
  + constructor; [now apply IH|].
    rewrite Forall_forall in *. intros z Hz.
    apply (insert_desc_In (F:=xreal) key) in Hz. destruct Hz as [->|Hz].
    * now apply xltb_asym.
    * now apply Hall.
  + constructor; [now constructor|]. constructor; [exact E|].
    rewrite Forall_forall in *. intros z Hz.
    apply (xge_trans _ (key y)); auto. now apply Hall.
Qed.

Lemma insertion_desc_sorted l :
  Forall (fun y => xisnan (key y) = false) l ->
  StronglySorted (desc key) (fold_right (insert_desc (F:=xreal) key) [] l) /\
  Forall (fun y => xisnan (key y) = false) (fold_right (insert_desc (F:=xreal) key) [] l).
Proof.
induction 1 as [|x l Hx Hl IH]; simpl; [split; constructor|].
destruct IH as [IHs IHn]. split.
- now apply insert_desc_sorted.
- rewrite Forall_forall in *. intros z Hz.
  apply (insert_desc_In (F:=xreal) key) in Hz. destruct Hz as [->|Hz]; auto.
Qed.

Lemma sort_values_desc_sorted df :
  StronglySorted (fun x y => ranks_before (key x) (key y))
                 (sort_values_desc (F:=xreal) key df).
Proof.
unfold sort_values_desc.
assert (Hgood : Forall (fun y => xisnan (key y) = false)
                       (filter (fun r => negb (isnan (key r))) df)).
{ rewrite Forall_forall. intros y Hy. apply filter_In in Hy. destruct Hy as [_ Hy].
  now apply negb_true_iff in Hy. }
destruct (insertion_desc_sorted _ Hgood) as [Hs Hn].
set (good := fold_right (insert_desc (F:=xreal) key) []
                        (filter (fun r => negb (isnan (key r))) df)) in *.
assert (Hbad : Forall (fun y => xisnan (key y) = true) (filter (fun r => isnan (key r)) df)).
{ rewrite Forall_forall. intros y Hy. now apply filter_In in Hy. }
set (bad := filter (fun r => isnan (key r)) df) in *.
clearbody good bad. clear Hgood.
induction Hs as [|x l Hs IH Hall]; simpl.
- induction Hbad as [|y l Hy Hl IH]; constructor; [exact IH|].
  rewrite Forall_forall in *. intros z Hz. specialize (Hl z Hz).
  unfold ranks_before. destruct (key y), (key z); simpl in *; try discriminate. now split.
- inversion Hn as [|? ? Hx Hn']; subst. constructor; [now apply IH|].
  rewrite Forall_forall in *. intros z Hz. apply in_app_iff in Hz.
  unfold ranks_before. destruct Hz as [Hz|Hz].
  + split; [now apply Hall|]. rewrite Hx. discriminate.
  + specialize (Hbad z Hz). split; [|rewrite Hx; discriminate].
    destruct (key x), (key z); simpl in *; try discriminate; reflexivity.
Qed.
End DescendingOrder.

Lemma Subseq_nil_l {A} (l : list A) : Subseq [] l.
Proof. induction l as [|x l IH]; [constructor|now apply Subseq_skip]. Qed.

Lemma Subseq_firstn {A} (n : nat) (l : list A) : Subseq (firstn n l) l.
Proof.
  revert l; induction n as [|n IH]; intros l; simpl; [apply Subseq_nil_l|].
  destruct l as [|x l]; [constructor|]. apply Subseq_keep. apply IH.
Qed.

(** X8: in exact arithmetic each ranking is in descending order of its key:
    no row is followed by a row with a strictly larger key, and rows whose
    key is NaN come after all others. *)
Theorem rankings_are_descending :
  forall (merged : list DistrictAggregate) (monthly : list MonthlyRow),
  StronglySorted (fun x y => ranks_before (biometric_intensity_index x)
                                          (biometric_intensity_index y))
                 (top_districts (F:=xreal) merged) /\
  StronglySorted (fun x y => ranks_before (biometric_per_capita x) (biometric_per_capita y))
                 (top_states (F:=xreal) merged) /\
  StronglySorted (fun x y => ranks_before (growth_rate x) (growth_rate y))
                 (trend (F:=xreal) monthly).
Proof.
  intros merged monthly. unfold top_districts, top_states, trend, head.
  repeat split; (eapply Subseq_sorted; [apply Subseq_firstn|apply sort_values_desc_sorted]).
Qed.

(* ------------------------------------------------------------------ *)
(** ** The sidebar defaults *)

Lemma date_min_le a b : date_le (date_min a b) a /\ date_le (date_min a b) b.
Proof.
  unfold date_min, date_le. destruct (date_leb a b) eqn:E.
  - split; [apply date_le_refl|exact E].
  - split; [now apply date_leb_total|apply date_le_refl].
Qed.

Lemma fold_date_min ms : forall a,
  (fold_left date_min ms a = a \/ In (fold_left date_min ms a) ms) /\
  date_le (fold_left date_min ms a) a /\
  forall x, In x ms -> date_le (fold_left date_min ms a) x.
Proof.
  induction ms as [|x ms IH]; intros a; simpl.
  - split; [now left|]. split; [apply date_le_refl|]. intros ? [].
  - destruct (IH (date_min a x)) as [Hin [Hle Hall]].
    destruct (date_min_le a x) as [Ha Hx].
    split; [|split].
    + destruct Hin as [E|Hin]; [|now right; right].
      rewrite E. unfold date_min. destruct (date_leb a x); [now left|now right; left].
    + unfold date_le in *. eapply date_leb_trans; eassumption.
    + intros y [<-|Hy]; [|now apply Hall].
      unfold date_le in *. eapply date_leb_trans; eassumption.
Qed.

Lemma min_date_is_min (biometric : list BiometricEvent) (lo : date) :
  min_date biometric = Some lo ->
  In lo (map b_date biometric) /\ forall r, In r biometric -> date_le lo (b_date r).
Proof.
  unfold min_date. destruct biometric as [|r0 t]; simpl; [discriminate|].
  intros [= <-]. destruct (fold_date_min (map b_date t) (b_date r0)) as [Hin [Hle Hall]].
  split.
  - destruct Hin as [->|Hin]; [now left|now right].
  - intros r [<-|Hr]; [exact Hle|]. apply Hall. now apply in_map.
Qed.

Lemma max_date_is_max (biometric : list BiometricEvent) (hi : date) :
  max_date biometric = Some hi ->
  In hi (map b_date biometric) /\ forall r, In r biometric -> date_le (b_date r) hi.
Proof.
  unfold max_date. destruct biometric as [|r0 t]; simpl; [discriminate|].
  intros [= <-]. destruct (fold_date_max (map b_date t) (b_date r0)) as [Hin [Hge Hall]].
  split.
  - destruct Hin as [->|Hin]; [now left|now right].
  - intros r [<-|Hr]; [exact Hge|]. apply Hall. now apply in_map.
Qed.

Lemma filter_id_all {A} (p : A -> bool) (l : list A) :
  filter p l = l -> forall x, In x l -> p x = true.
Proof.
  intros E x Hx. rewrite <- E in Hx. now apply filter_In in Hx.
Qed.

(** X9: the default date interval (lines 43-51) with the region "All"
    keeps the whole biometric table, and it is the tightest interval that
    does: an interval keeps every biometric row exactly when it starts no
    later than the earliest date and ends no earlier than the latest one. *)
Theorem default_date_range_is_the_tightest_full_window :
  forall (biometric : list BiometricEvent) (lo hi : date),
    min_date biometric = Some lo -> max_date biometric = Some hi ->
    date_le lo hi /\
    apply_filters (mkFilters (lo, hi) "All") biometric = biometric /\
    (forall start end_,
       apply_filters (mkFilters (start, end_) "All") biometric = biometric <->
       date_le start lo /\ date_le hi end_).
Proof.
  intros biometric lo hi Hlo Hhi.
  destruct (min_date_is_min _ _ Hlo) as [Hlo_in Hlo_le].
  destruct (max_date_is_max _ _ Hhi) as [Hhi_in Hhi_le].
  assert (Hfull : forall start end_, date_le start lo -> date_le hi end_ ->
            apply_filters (mkFilters (start, end_) "All") biometric = biometric).
  { intros start end_ Hs He. rewrite apply_filters_unfold. cbn.
    apply filter_all. intros r Hr. unfold in_range. cbn.
    apply andb_true_intro. split.
    - exact (date_leb_trans _ _ _ Hs (Hlo_le r Hr)).
    - exact (date_leb_trans _ _ _ (Hhi_le r Hr) He). }
  split; [|split].
  - apply in_map_iff in Hlo_in. destruct Hlo_in as (r & <- & Hr). now apply Hhi_le.
  - apply Hfull; apply date_le_refl.
  - intros start end_. split; [|intros [Hs He]; now apply Hfull].
    rewrite apply_filters_unfold. cbn. intros E.
    pose proof (filter_id_all _ _ E) as Hall.
    apply in_map_iff in Hlo_in. destruct Hlo_in as (r1 & <- & Hr1).
    apply in_map_iff in Hhi_in. destruct Hhi_in as (r2 & <- & Hr2).
    pose proof (Hall r1 Hr1) as H1. pose proof (Hall r2 Hr2) as H2.
    unfold in_range in H1, H2. cbn in H1, H2.
    apply andb_prop in H1. apply andb_prop in H2. split; [apply H1|apply H2].
Qed.

Lemma default_date_range_is_the_tightest_full_window_witness :
  min_date (biometric growth_sources) = Some (mkDate 2025 2 3) /\
  max_date (biometric growth_sources) = Some (mkDate 2025 4 7) /\
  apply_filters (mkFilters (mkDate 2025 2 3, mkDate 2025 4 7) "All")
                (biometric growth_sources) = biometric growth_sources.
Proof.
  split; [reflexivity|]. split; [reflexivity|].
  exact (proj1 (proj2 (default_date_range_is_the_tightest_full_window
                          (biometric growth_sources) (mkDate 2025 2 3) (mkDate 2025 4 7)
                          eq_refl eq_refl))).
Defined.

(** X10: the region selector (lines 53-56) offers "All" followed by the
    distinct states of the biometric table in strictly ascending order; an
    entry is repeated exactly when some biometric row's state is itself
    called "All"; and with the default date interval every offered entry
    gives a non-empty biometric table. *)
Theorem state_options_spec : forall (biometric : list BiometricEvent),
  hd_error (state_options biometric) = Some "All" /\
  StronglySorted (key_lt String.compare) (tl (state_options biometric)) /\
  (forall s, In s (tl (state_options biometric)) <->
             exists r, In r biometric /\ b_state r = s) /\
  (NoDup (state_options biometric) <-> forall r, In r biometric -> b_state r <> "All") /\
  (forall lo hi s,
     min_date biometric = Some lo -> max_date biometric = Some hi ->
     In s (state_options biometric) ->
     apply_filters (mkFilters (lo, hi) s) biometric <> []).
Proof.
  intros biometric. unfold state_options. cbn [hd_error tl].
  assert (Hin : forall s, In s (group_keys String.compare (map b_state biometric)) <->
                          exists r, In r biometric /\ b_state r = s).
  { intros s. rewrite group_keys_In by typeclasses eauto. rewrite in_map_iff.
    split; intros (r & H1 & H2); exists r; split; assumption. }
  assert (Hs : StronglySorted (key_lt String.compare)
                 (group_keys String.compare (map b_state biometric)))
    by (apply group_keys_sorted; typeclasses eauto).
  split; [reflexivity|]. split; [exact Hs|]. split; [exact Hin|]. split.
  - split.
    + intros Hnd r Hr E. inversion Hnd as [|? ? Hnot _]; subst. apply Hnot.
      apply Hin. eauto.
    + intros Hno. constructor.
      * intros H. apply Hin in H. destruct H as (r & Hr & E). exact (Hno r Hr E).
      * apply (sorted_keys_NoDup String.compare). exact Hs.
  - intros lo hi s Hlo Hhi Hs_in.
    destruct (min_date_is_min _ _ Hlo) as [Hlo_in Hlo_le].
    destruct (max_date_is_max _ _ Hhi) as [_ Hhi_le].
    assert (Hrange : filter (in_range lo hi) biometric = biometric).
    { apply filter_all. intros r Hr. unfold in_range. cbn.
      apply andb_true_intro. split; [now apply Hlo_le|now apply Hhi_le]. }
    rewrite apply_filters_unfold. cbn [date_range state fst snd]. rewrite Hrange.
    destruct (String.eqb s "All") eqn:E; cbn [negb].
    + apply in_map_iff in Hlo_in. destruct Hlo_in as (r & _ & Hr).
      intros ->. exact Hr.
    + destruct Hs_in as [<-|Hs_in]; [now rewrite String.eqb_refl in E|].
      apply Hin in Hs_in. destruct Hs_in as (r & Hr & Er).
      intros Hnil.
      assert (Hf : In r (filter (fun r0 => String.eqb (col_state r0) s) biometric)).
      { apply filter_In. split; [exact Hr|]. cbn. rewrite Er. apply String.eqb_refl. }
      rewrite Hnil in Hf. exact Hf.
Qed.

(* ------------------------------------------------------------------ *)
(** ** The monthly district table *)

Lemma filter_of_map {A B} (f : A -> B) (p : B -> bool) (l : list A) :
  filter p (map f l) = map f (filter (fun x => p (f x)) l).
Proof.
  induction l as [|x l IH]; simpl; [reflexivity|].
  destruct (p (f x)); simpl; now rewrite IH.
Qed.

Lemma month_key_is_eq (k : month_key) (d : string) (m : date) :
  is_eq (month_key_compare k (d, m)) = String.eqb (fst k) d && date_eqb (snd k) m.
Proof.
  apply Bool.eq_true_iff_eq.
  rewrite (is_eq_true month_key_compare) by (unfold month_key_compare; typeclasses eauto).
  rewrite andb_true_iff, String.eqb_eq, date_eqb_eq.
  destruct k as [d' m']; simpl. split; [intros [= -> ->]; now split|intros [-> ->]; reflexivity].
Qed.

Lemma add64_sum64 {A} (f g : A -> Z) (l : list A) :
  add64 (sum64 (map f l)) (sum64 (map g l)) = wrap64 (Zsum (map (fun x => f x + g x) l)).
Proof.
  unfold add64. rewrite !sum64_Zsum, wrap64_add_l, wrap64_add_r, Zsum_pointwise. reflexivity.
Qed.

Lemma monthly_In (biometric_f : list BiometricEvent) (r : MonthlyRow) :
  In r (monthly biometric_f) ->
  (exists b, In b biometric_f /\ b_district b = m_district r /\
             month_start (b_date b) = m_month r) /\
  biometrics_total r
  = wrap64 (Zsum (map (fun b => bio_age_5_17 b + bio_age_17_ b)
                   (filter (fun b => String.eqb (b_district b) (m_district r) &&
                                     date_eqb (month_start (b_date b)) (m_month r))
                           biometric_f))).
Proof.
  unfold monthly, monthly_sums. rewrite map_map. intros Hr.
  apply in_map_iff in Hr. destruct Hr as [[[d m] G] [<- Hg]].
  apply groupby_In in Hg; [|unfold month_key_compare; typeclasses eauto].
  cbn [fst snd] in Hg. destruct Hg as [[bm [Hbm Hk]] HG].
  unfold bio_month in Hbm. apply in_map_iff in Hbm. destruct Hbm as [b [<- Hb]].
  cbn in Hk. injection Hk as Hd Hm.
  cbn [with_biometrics_total ms_key ms_bio_age_5_17 ms_bio_age_17_ fst snd
       m_district m_month biometrics_total].
  split; [exists b; now repeat split|].
  rewrite HG. unfold bio_month. rewrite filter_of_map, !map_map. cbn [bm_row bm_month].
  rewrite add64_sum64. f_equal. f_equal. f_equal.
  apply filter_ext. intros x. apply month_key_is_eq.
Qed.

(** X11: the monthly table (lines 211-218) is keyed by district name and
    month only.  Each row's month is a first of month, its total is the
    (int64) sum of both biometric columns over all filtered rows of that
    district name in that month, whatever their state; every filtered row
    falls into one group; and the monthly totals add up to the lifecycle
    total of biometric transactions. *)
Theorem monthly_pools_a_district_name_across_states :
  forall (biometric_f : list BiometricEvent),
  (forall r, In r (monthly biometric_f) ->
     dt_day (m_month r) = 1 /\
     (exists b, In b biometric_f /\ b_district b = m_district r /\
                month_start (b_date b) = m_month r) /\
     biometrics_total r
     = wrap64 (Zsum (map (fun b => bio_age_5_17 b + bio_age_17_ b)
                      (filter (fun b => String.eqb (b_district b) (m_district r) &&
                                        date_eqb (month_start (b_date b)) (m_month r))
                              biometric_f)))) /\
  (forall b, In b biometric_f ->
     exists r, In r (monthly biometric_f) /\
               m_district r = b_district b /\ m_month r = month_start (b_date b)) /\
  NoDup (map month_key_of (monthly biometric_f)) /\
  wrap64 (Zsum (map biometrics_total (monthly biometric_f))) = total_biometrics biometric_f.
Proof.
  intros biometric_f. split; [|split; [|split]].
  - intros r Hr. destruct (monthly_In _ _ Hr) as [Hex Htot].
    split; [|split; assumption].
    destruct Hex as (b & _ & _ & <-). reflexivity.
  - intros b Hb.
    assert (Hk : In (b_district b, month_start (b_date b))
                    (map fst (groupby month_key_compare
                                (fun r => (b_district (bm_row r), bm_month r))
                                (bio_month biometric_f)))).
    { apply groupby_key_present; [unfold month_key_compare; typeclasses eauto|].
      exists (mkBioMonth b (month_start (b_date b))). split; [|reflexivity].
      unfold bio_month. apply in_map_iff. now exists b. }
    apply in_map_iff in Hk. destruct Hk as [g [Eg Hg]].
    exists (with_biometrics_total
              (mkMonthlySums (fst g)
                 (sum64 (map (fun r => bio_age_5_17 (bm_row r)) (snd g)))
                 (sum64 (map (fun r => bio_age_17_ (bm_row r)) (snd g))))).
    split.
    + unfold monthly, monthly_sums. apply in_map. apply in_map_iff. now exists g.
    + cbn. rewrite Eg. now split.
  - apply (sorted_keys_NoDup month_key_compare).
    pose proof (monthly_sorted biometric_f) as Hs. unfold row_lt in Hs.
    clear -Hs. induction Hs as [|x l Hs IH Hall]; simpl; constructor; [exact IH|].
    rewrite Forall_forall in *. intros k Hk. apply in_map_iff in Hk.
    destruct Hk as [y [<- Hy]]. now apply Hall.
  - unfold monthly, monthly_sums, total_biometrics. rewrite !map_map.
    cbn [with_biometrics_total ms_key ms_bio_age_5_17 ms_bio_age_17_ fst snd biometrics_total].
    unfold add64 at 1.
    rewrite (wrap64_Zsum_map
               (fun g : month_key * list BioMonth =>
                  sum64 (map (fun r => bio_age_5_17 (bm_row r)) (snd g)) +
                  sum64 (map (fun r => bio_age_17_ (bm_row r)) (snd g)))).
    rewrite Zsum_pointwise.
    rewrite <- wrap64_add_l, <- wrap64_add_r, <- !sum64_Zsum.
    rewrite !(groupby_sum64 month_key_compare)
      by (unfold month_key_compare; typeclasses eauto).
    unfold bio_month. rewrite !map_map. cbn [bm_row].
    unfold sum64 at 3. cbn [fold_left]. unfold add64.
    rewrite Z.add_0_l, wrap64_add_l. reflexivity.
Qed.

(* ------------------------------------------------------------------ *)
(** ** The state table and its [dropna] *)

Lemma IZR_neq_0 (z : Z) : z <> 0 -> IZR z <> 0%R.
Proof. intros Hz E. apply Hz. now apply eq_IZR_R0. Qed.

Lemma int_ratio_nan (b p : Z) :
  xisnan (xdiv (Fin (IZR b)) (Fin (IZR p))) = true <-> p = 0 /\ b = 0.
Proof.
  simpl. destruct (Z.eq_dec p 0) as [->|Hp].
  - rewrite Reqb_refl. destruct (Z.eq_dec b 0) as [->|Hb].
    + rewrite Reqb_refl. simpl. tauto.
    + rewrite (Reqb_false _ _ (IZR_neq_0 b Hb)).
      destruct (Rltb 0 (IZR b)); simpl; split; try discriminate; intros [_ E]; contradiction.
  - rewrite (Reqb_false _ _ (IZR_neq_0 p Hp)). simpl.
    split; [discriminate|intros [E _]; contradiction].
Qed.

Lemma with_per_capita_inj {F} `{Float64 F} (r r' : StateSums) :
  with_per_capita (F:=F) r = with_per_capita r' -> r = r'.
Proof.
  destruct r, r'. unfold with_per_capita. simpl. intros E. injection E as -> -> ->. reflexivity.
Qed.

(** X12: [dropna] on the state table (line 195) removes a state exactly
    when its population sum and its biometric sum are both 0.  A state with
    population sum 0 and a non-zero biometric sum stays in the table with an
    infinite per-capita value; every other state has the exact quotient. *)
Theorem dropna_removes_only_zero_over_zero :
  forall (merged : list DistrictAggregate) (r : StateSums),
  (In (with_per_capita r) (state_agg (F:=xreal) merged) <->
   In r (state_sums merged) /\ ~ (ss_population r = 0 /\ ss_biometrics r = 0)) /\
  (ss_population r <> 0 ->
   biometric_per_capita (with_per_capita (F:=xreal) r)
   = Fin (IZR (ss_biometrics r) / IZR (ss_population r))) /\
  (ss_population r = 0 -> 0 < ss_biometrics r ->
   biometric_per_capita (with_per_capita (F:=xreal) r) = PInf) /\
  (ss_population r = 0 -> ss_biometrics r < 0 ->
   biometric_per_capita (with_per_capita (F:=xreal) r) = NInf).
Proof.
  intros merged r. split; [|split; [|split]].
  - unfold state_agg. rewrite filter_In, in_map_iff.
    cbn [with_per_capita biometric_per_capita isnan fdiv of_int Exact].
    rewrite negb_true_iff, <- not_true_iff_false, int_ratio_nan.
    split.
    + intros [[r' [E Hr']] Hn]. apply with_per_capita_inj in E. subst r'. now split.
    + intros [Hr Hn]. split; [now exists r|exact Hn].
  - intros Hp. cbn. now rewrite (Reqb_false _ _ (IZR_neq_0 _ Hp)).
  - intros Hp Hb. cbn. rewrite Hp, Reqb_refl.
    rewrite Reqb_false by (apply IZR_neq_0; lia).
    rewrite Rltb_true by (now apply IZR_lt). reflexivity.
  - intros Hp Hb. cbn. rewrite Hp, Reqb_refl.
    rewrite Reqb_false by (apply IZR_neq_0; lia).
    rewrite Rltb_false by (apply IZR_le; lia). reflexivity.
Qed.

Lemma Zsum_nonneg {A} (f : A -> Z) (l : list A) :
  (forall x, In x l -> 0 <= f x) -> 0 <= Zsum (map f l).
Proof.
  induction l as [|x l IH]; simpl; intros Hall; [lia|].
  pose proof (Hall x (or_introl eq_refl)).
  assert (0 <= Zsum (map f l)) by (apply IH; intros y Hy; apply Hall; now right). lia.
Qed.

Lemma Zsum_member_le {A} (f : A -> Z) (l : list A) (x : A) :
  (forall y, In y l -> 0 <= f y) -> In x l -> f x <= Zsum (map f l).
Proof.
  induction l as [|y l IH]; simpl; intros Hall Hx; [contradiction|].
  pose proof (Hall y (or_introl eq_refl)).
  assert (Hrest : forall z, In z l -> 0 <= f z) by (intros z Hz; apply Hall; now right).
  pose proof (Zsum_nonneg f l Hrest).
  destruct Hx as [->|Hx]; [lia|]. specialize (IH Hrest Hx). lia.
Qed.

Lemma Zsum_filter_le {A} (f : A -> Z) (p : A -> bool) (l : list A) :
  (forall x, In x l -> 0 <= f x) -> Zsum (map f (filter p l)) <= Zsum (map f l).
Proof.
  induction l as [|x l IH]; simpl; intros Hall; [lia|].
  pose proof (Hall x (or_introl eq_refl)).
  assert (Hrest : forall z, In z l -> 0 <= f z) by (intros z Hz; apply Hall; now right).
  specialize (IH Hrest). destruct (p x); simpl; lia.
Qed.

Lemma state_sums_In (m : list DistrictAggregate) (r : StateSums) :
  In r (state_sums m) ->
  (exists a, In a m /\ j_state (da_row a) = ss_state r) /\
  ss_population r
  = sum64 (map population
             (filter (fun a => is_eq (String.compare (j_state (da_row a)) (ss_state r))) m)).
Proof.
  unfold state_sums. rewrite in_map_iff. intros [g [<- Hg]]. simpl.
  apply groupby_In in Hg; [|typeclasses eauto].
  destruct Hg as [Hex Hrows]. rewrite Hrows. split; [exact Hex|reflexivity].
Qed.

Lemma floor_state_population (w : Filters) (src : Sources) (r : StateSums) :
  Zsum (map population (district_aggregate w src)) < 2 ^ 63 ->
  In r (state_sums (district_aggregate w src)) -> 10000 < ss_population r.
Proof.
  intros Hsmall Hr. apply state_sums_In in Hr. destruct Hr as [[a [Ha Hst]] ->].
  set (m := district_aggregate w src) in *.
  set (p := fun a0 => is_eq (String.compare (j_state (da_row a0)) (ss_state r))).
  assert (Hpos : forall x, In x m -> 10000 < population x).
  { intros x Hx. now apply district_aggregate_In in Hx. }
  assert (Hnn : forall x, In x m -> 0 <= population x)
    by (intros x Hx; specialize (Hpos x Hx); lia).
  assert (HaG : In a (filter p m)).
  { apply filter_In. split; [exact Ha|]. unfold p.
    apply (is_eq_true String.compare). exact Hst. }
  assert (HnnG : forall x, In x (filter p m) -> 0 <= population x).
  { intros x Hx. apply filter_In in Hx. now apply Hnn. }
  pose proof (Zsum_member_le population (filter p m) a HnnG HaG) as Hlow.
  pose proof (Zsum_filter_le population p m Hnn) as Hup.
  apply filter_In in HaG. specialize (Hpos a (proj1 HaG)).
  rewrite sum64_Zsum, wrap64_small; lia.
Qed.

(** X13: because every district of [merged] passed the population floor, a
    state's population sum exceeds 10,000 as long as the populations do not
    overflow int64; then [dropna] removes nothing, every state with a
    district in [merged] has a row, and every per-capita value is the exact
    finite quotient. *)
Theorem population_floor_keeps_state_table_finite :
  forall (w : Filters) (src : Sources),
    Zsum (map population (district_aggregate w src)) < 2 ^ 63 ->
    state_agg (F:=xreal) (district_aggregate w src)
    = map with_per_capita (state_sums (district_aggregate w src)) /\
    (forall s, In s (state_agg (F:=xreal) (district_aggregate w src)) ->
       10000 < sa_population s /\
       biometric_per_capita s = Fin (IZR (sa_biometrics s) / IZR (sa_population s))) /\
    (forall a, In a (district_aggregate w src) ->
       exists s, In s (state_agg (F:=xreal) (district_aggregate w src)) /\
                 sa_state s = j_state (da_row a)).
Proof.
  intros w src Hsmall.
  assert (Hall : state_agg (F:=xreal) (district_aggregate w src)
                 = map with_per_capita (state_sums (district_aggregate w src))).
  { unfold state_agg. apply filter_all. intros s Hs.
    apply in_map_iff in Hs. destruct Hs as [r [<- Hr]].
    pose proof (floor_state_population w src r Hsmall Hr) as Hp.
    cbn [with_per_capita biometric_per_capita isnan fdiv of_int Exact].
    apply negb_true_iff, not_true_iff_false. rewrite int_ratio_nan. lia. }
  split; [exact Hall|]. split.
  - intros s Hs. rewrite Hall in Hs. apply in_map_iff in Hs. destruct Hs as [r [<- Hr]].
    pose proof (floor_state_population w src r Hsmall Hr) as Hp.
    split; [exact Hp|]. cbn. rewrite Reqb_false by (apply IZR_neq_0; lia). reflexivity.
  - intros a Ha. rewrite Hall.
    assert (Hk : In (j_state (da_row a))
                    (map fst (groupby String.compare (fun r => j_state (da_row r))
                                      (district_aggregate w src)))).
    { apply groupby_key_present; [typeclasses eauto|]. now exists a. }
    apply in_map_iff in Hk. destruct Hk as [g [Eg Hg]].
    exists (with_per_capita
              (mkStateSums (fst g) (sum64 (map population (snd g)))
                           (sum64 (map biometrics (snd g))))).
    split; [|exact Eg].
    apply in_map. unfold state_sums. apply in_map_iff. now exists g.
Qed.

Lemma population_floor_keeps_state_table_finite_witness :
  Zsum (map population (district_aggregate year_2025 floor_sources)) < 2 ^ 63 /\
  state_agg (F:=xreal) (district_aggregate year_2025 floor_sources)
  = map with_per_capita (state_sums (district_aggregate year_2025 floor_sources)).
Proof.
  split; [vm_compute; reflexivity|].
  exact (proj1 (population_floor_keeps_state_table_finite year_2025 floor_sources eq_refl)).
Defined.

(* ------------------------------------------------------------------ *)
(** ** The intensity index against the national rate *)

Lemma Rltb_iff (x y : R) : Rltb x y = true <-> (x < y)%R.
Proof. unfold Rltb. destruct (Rlt_dec x y); split; auto; discriminate. Qed.

Lemma ratio_gt_one (x y : Z) :
  0 < y -> (Rltb 1 (IZR x / IZR y) = true <-> y < x).
Proof.
  intros Hy. rewrite Rltb_iff. assert (Hy' : (0 < IZR y)%R) by (now apply IZR_lt).
  split.
  - intros H. apply lt_IZR.
    apply (Rmult_lt_compat_r (IZR y)) in H; [|exact Hy'].
    unfold Rdiv in H. rewrite Rmult_assoc, Rinv_l, Rmult_1_r, Rmult_1_l in H; lra.
  - intros H. apply IZR_lt in H.
    apply (Rmult_lt_reg_r (IZR y)); [exact Hy'|].
    unfold Rdiv. rewrite Rmult_assoc, Rinv_l, Rmult_1_r, Rmult_1_l; lra.
Qed.

Lemma ratio_lt_one (x y : Z) :
  0 < y -> (Rltb (IZR x / IZR y) 1 = true <-> x < y).
Proof.
  intros Hy. rewrite Rltb_iff. assert (Hy' : (0 < IZR y)%R) by (now apply IZR_lt).
  split.
  - intros H. apply lt_IZR.
    apply (Rmult_lt_compat_r (IZR y)) in H; [|exact Hy'].
    unfold Rdiv in H. rewrite Rmult_assoc, Rinv_l, Rmult_1_r, Rmult_1_l in H; lra.
  - intros H. apply IZR_lt in H.
    apply (Rmult_lt_reg_r (IZR y)); [exact Hy'|].
    unfold Rdiv. rewrite Rmult_assoc, Rinv_l, Rmult_1_r, Rmult_1_l; lra.
Qed.

(** X14: an intensity index above 1 means that the district has more
    biometric transactions per inhabitant than the nation, an index below 1
    that it has fewer; the index itself is never NaN.  The statement is for
    non-negative district counts whose totals stay below 2^53 (so that they
    enter float64 unrounded) with at least one transaction overall, and it
    is proved in exact arithmetic; the converse is left out, since a
    rounded quotient can be exactly 1 for a district off the national
    rate. *)
Theorem intensity_index_above_one_means_above_national_rate :
  forall (w : Filters) (src : Sources),
    Zsum (map population (district_aggregate w src)) < 2 ^ 53 ->
    0 < Zsum (map biometrics (district_aggregate w src)) < 2 ^ 53 ->
    Forall (fun a => 0 <= biometrics a) (district_aggregate w src) ->
    Forall (fun h =>
      isnan (biometric_intensity_index h) = false /\
      (fltb (of_int 1) (biometric_intensity_index h) = true ->
       population (hub_row h) * Zsum (map biometrics (district_aggregate w src))
       < biometrics (hub_row h) * Zsum (map population (district_aggregate w src))) /\
      (fltb (biometric_intensity_index h) (of_int 1) = true ->
       biometrics (hub_row h) * Zsum (map population (district_aggregate w src))
       < population (hub_row h) * Zsum (map biometrics (district_aggregate w src))))
    (with_intensity (F:=xreal) (district_aggregate w src)).
Proof.
  intros w src HP HB _. apply Forall_forall. intros h Hh.
  apply with_intensity_In in Hh. destruct Hh as [Hrow Hidx].
  set (m := district_aggregate w src) in *.
  set (P := Zsum (map population m)) in *. set (B := Zsum (map biometrics m)) in *.
  set (p := population (hub_row h)) in *. set (b := biometrics (hub_row h)) in *.
  assert (Hfloor : forall x, In x m -> 10000 < population x).
  { intros x Hx. now apply district_aggregate_In in Hx. }
  assert (Hp : 10000 < p) by (now apply Hfloor).
  assert (HpP : p <= P).
  { apply (Zsum_member_le population m (hub_row h)); [|exact Hrow].
    intros y Hy. specialize (Hfloor y Hy). lia. }
  assert (HsumP : sum64 (map population m) = P)
    by (rewrite sum64_Zsum; apply wrap64_small; fold P; lia).
  assert (HsumB : sum64 (map biometrics m) = B)
    by (rewrite sum64_Zsum; apply wrap64_small; fold B; lia).
  assert (Hp' : IZR p <> 0%R) by (apply IZR_neq_0; lia).
  assert (HP' : IZR P <> 0%R) by (apply IZR_neq_0; lia).
  assert (HB' : IZR B <> 0%R) by (apply IZR_neq_0; lia).
  assert (Hval : biometric_intensity_index h = Fin (IZR (b * P) / IZR (p * B))).
  { rewrite Hidx. unfold national_rate. rewrite HsumP, HsumB.
    cbn [fdiv of_int Exact]. fold p b.
    rewrite (xdiv_fin (IZR B) (IZR P) HP'), (xdiv_fin (IZR b) (IZR p) Hp').
    rewrite xdiv_fin.
    - f_equal. rewrite !mult_IZR. field. repeat split; assumption.
    - unfold Rdiv. apply Rmult_integral_contrapositive_currified; [exact HB'|].
      now apply Rinv_neq_0_compat. }
  assert (Hden : 0 < p * B) by nia.
  rewrite Hval. cbn [isnan fltb of_int Exact xltb xisnan].
  split; [reflexivity|].
  split; [apply ratio_gt_one|apply ratio_lt_one]; exact Hden.
Qed.

Lemma intensity_index_above_one_means_above_national_rate_witness :
  Zsum (map population (district_aggregate year_2025 floor_sources)) < 2 ^ 53 /\
  0 < Zsum (map biometrics (district_aggregate year_2025 floor_sources)) < 2 ^ 53 /\
  Forall (fun a => 0 <= biometrics a) (district_aggregate year_2025 floor_sources) /\
  Forall (fun h => isnan (biometric_intensity_index h) = false)
         (with_intensity (F:=xreal) (district_aggregate year_2025 floor_sources)).
Proof.
  assert (Hnn : Forall (fun a => 0 <= biometrics a)
                       (district_aggregate year_2025 floor_sources)).
  { vm_compute. repeat constructor; intros E; discriminate E. }
  split; [vm_compute; reflexivity|]. split; [vm_compute; split; reflexivity|].
  split; [exact Hnn|].
  eapply Forall_impl;
    [|exact (intensity_index_above_one_means_above_national_rate year_2025 floor_sources
               eq_refl (conj eq_refl eq_refl) Hnn)].
  intros h [Hval _]. exact Hval.
Defined.

(* ------------------------------------------------------------------ *)
(** ** How large a z-score can be *)

Local Open Scope R_scope.

Lemma Rsum_nil : Rsum [] = 0.
Proof. reflexivity. Qed.

Lemma Rsum_app (l1 l2 : list R) : Rsum (l1 ++ l2) = Rsum l1 + Rsum l2.
Proof.
  induction l1 as [|x l1 IH]; simpl.
  - rewrite Rsum_nil. lra.
  - rewrite !Rsum_cons, IH. lra.
Qed.

Lemma Rsum_shift {A} (f : A -> R) (c : R) (l : list A) :
  Rsum (map (fun z => f z - c) l) = Rsum (map f l) - INR (List.length l) * c.
Proof.
  induction l as [|x l IH].
  - simpl. rewrite Rsum_nil. lra.
  - cbn [map]. rewrite !Rsum_cons, IH.
    rewrite (S_INR (List.length l) : INR (List.length (x :: l)) = _). ring.
Qed.

(** The squared distances of [a] to the members of [l] add up to
    [n a^2 - 2 a S + Q]. *)
Lemma distances_nonneg (a : R) (l : list R) :
  0 <= INR (List.length l) * (a * a) - 2 * a * Rsum l + Rsum (map (fun x => x * x) l).
Proof.
  induction l as [|y l IH].
  - simpl. rewrite Rsum_nil. lra.
  - cbn [map]. rewrite !Rsum_cons.
    rewrite (S_INR (List.length l) : INR (List.length (y :: l)) = _).
    pose proof (Rle_0_sqr (a - y)) as Hsq. unfold Rsqr in Hsq. lra.
Qed.

Lemma sum_square_le (l : list R) :
  Rsum l * Rsum l <= INR (List.length l) * Rsum (map (fun x => x * x) l).
Proof.
  induction l as [|a l IH].
  - simpl. rewrite Rsum_nil. lra.
  - cbn [map]. rewrite !Rsum_cons.
    rewrite (S_INR (List.length l) : INR (List.length (a :: l)) = _).
    pose proof (distances_nonneg a l). lra.
Qed.

(** In a list that sums to 0, no member's square exceeds the share
    [(n - 1) / n] of the sum of squares. *)
Lemma centred_member_bound (d : list R) (x : R) :
  Rsum d = 0 -> In x d ->
  INR (List.length d) * (x * x) <= (INR (List.length d) - 1) * Rsum (map (fun y => y * y) d).
Proof.
  intros Hzero Hx. apply in_split in Hx. destruct Hx as [l1 [l2 ->]].
  rewrite Rsum_app, Rsum_cons in Hzero.
  rewrite map_app. cbn [map]. rewrite Rsum_app, Rsum_cons.
  rewrite length_app. cbn [List.length]. rewrite Nat.add_succ_r, S_INR.
  pose proof (sum_square_le (l1 ++ l2)) as Hcs.
  rewrite Rsum_app, map_app, Rsum_app, length_app in Hcs.
  replace (INR (List.length l1 + List.length l2) + 1 - 1)
    with (INR (List.length l1 + List.length l2)) by ring.
  set (n := INR (List.length l1 + List.length l2)) in *.
  set (Q := Rsum (map (fun y => y * y) l1) + Rsum (map (fun y => y * y) l2)) in *.
  replace (Rsum (map (fun y => y * y) l1) + (x * x + Rsum (map (fun y => y * y) l2)))
    with (x * x + Q) by (unfold Q; ring).
  replace (Rsum l1 + Rsum l2) with (- x) in Hcs by lra.
  nra.
Qed.

Lemma deviations_sum_zero (a : list Z) :
  a <> [] -> Rsum (map (fun z => IZR z - mean_of a) a) = 0.
Proof.
  intros Hne. rewrite (Rsum_shift IZR (mean_of a) a). unfold mean_of.
  rewrite <- INR_IZR_INZ.
  assert (Hn : INR (List.length a) <> 0).
  { apply not_0_INR. destruct a; [contradiction|discriminate]. }
  field. exact Hn.
Qed.

Lemma deviation_bound (a : list Z) (z : Z) :
  In z a ->
  (IZR z - mean_of a) * (IZR z - mean_of a)
  <= (INR (List.length a) - 1) * variance_of a.
Proof.
  intros Hz. assert (Hne : a <> []) by (intros ->; contradiction).
  assert (Hn : 0 < INR (List.length a)).
  { apply lt_0_INR. destruct a; [contradiction|simpl; lia]. }
  pose proof (centred_member_bound (map (fun z => IZR z - mean_of a) a) (IZR z - mean_of a)
                (deviations_sum_zero a Hne)
                (in_map (fun z => IZR z - mean_of a) a z Hz)) as Hb.
  rewrite length_map, map_map in Hb.
  unfold variance_of. rewrite <- INR_IZR_INZ.
  set (n := INR (List.length a)) in *.
  set (Q := Rsum (map (fun z0 => (IZR z0 - mean_of a) * (IZR z0 - mean_of a)) a)) in *.
  set (d := (IZR z - mean_of a) * (IZR z - mean_of a)) in *.
  apply (Rmult_le_reg_l n); [exact Hn|].
  replace (n * ((n - 1) * (Q / n))) with ((n - 1) * Q) by (field; lra).
  exact Hb.
Qed.

(** A z-score is NaN or a finite number whose square is at most [n - 1]. *)
Lemma zscore_bound (a : list Z) (k : nat) :
  nth k (zscore (F:=xreal) a) NaN = NaN \/
  exists x, nth k (zscore (F:=xreal) a) NaN = Fin x /\ x * x <= INR (List.length a) - 1.
Proof.
  destruct a as [|z0 a'] eqn:Ea; [left; destruct k; reflexivity|]. rewrite <- Ea.
  assert (Hne : a <> []) by (rewrite Ea; discriminate).
  rewrite (zscore_exact a Hne).
  match goal with |- nth k ?l NaN = NaN \/ _ =>
    destruct (nth_in_or_default k l NaN) as [Hin|Hdef]; [|now left] end.
  apply in_map_iff in Hin. destruct Hin as [z [Hv Hz]]. rewrite <- Hv.
  pose proof (deviation_bound a z Hz) as Hb.
  pose proof (variance_nonneg a Hne) as Hvar.
  set (d := IZR z - mean_of a) in *. set (v := variance_of a) in *.
  destruct (Rltb (Rabs (1 / IZR (2 ^ 52) * mean_of a)) (R_sqrt.sqrt v)) eqn:Ethr;
    [|now left].
  apply Rltb_iff in Ethr.
  assert (Hpos : 0 < R_sqrt.sqrt v)
    by (pose proof (Rabs_pos (1 / IZR (2 ^ 52) * mean_of a)); lra).
  right. exists (d / R_sqrt.sqrt v). split; [apply xdiv_fin; lra|].
  assert (Hsq : R_sqrt.sqrt v * R_sqrt.sqrt v = v) by (now apply sqrt_sqrt).
  assert (Hvpos : 0 < v) by nra.
  replace (d / R_sqrt.sqrt v * (d / R_sqrt.sqrt v)) with (d * d / v)
    by (rewrite <- Hsq at 1; field; lra).
  apply (Rmult_le_reg_r v); [exact Hvpos|].
  replace (d * d / v * v) with (d * d) by (field; lra). exact Hb.
Qed.

Local Close Scope R_scope.

Lemma monthly_z_In (m : list MonthlyRow) (s : MonthlyDistrictSeries xreal) :
  In s (monthly_z m) ->
  exists k, z_score s
            = nth k (zscore (map biometrics_total
                               (filter (same_district (mz_row s)) m))) NaN.
Proof.
  intros Hs. apply In_nth_error in Hs. destruct Hs as [i Hi].
  assert (Hrow : nth_error m i = Some (mz_row s)).
  { rewrite <- (mz_row_monthly_z (F:=xreal) m). now apply map_nth_error. }
  rewrite (monthly_z_nth m i (mz_row s) Hrow) in Hi. injection Hi as Hi.
  eexists. rewrite <- Hi at 1. reflexivity.
Qed.

(** X15: a spike alert can only be raised for a district with at least 9
    observed months.  In exact arithmetic the square of a z-score is at most
    the number of observed months minus one, so that even 11 months are
    needed there; the statement keeps to 9 because a z-score that equals 3
    in exact arithmetic may be rounded above 3 in float64.  Eleven months
    are enough: ten months without transactions followed by a month with
    1,000 raise an alert in binary64. *)
Theorem spike_needs_nine_observed_months :
  forall (m : list MonthlyRow),
    Forall (fun s => (9 <= observed_months (m_district (mz_row s)) m)%nat)
           (spikes (F:=xreal) m) /\
    map (fun s => m_month (mz_row s))
        (spikes (F:=float) (monthly (biometric_f year_2025 surge_sources)))
    = [mkDate 2025 11 1].
Proof.
  intros m. split; [|vm_compute; reflexivity].
  apply Forall_forall. intros s Hs. unfold spikes in Hs. apply filter_In in Hs.
  destruct Hs as [Hin Hcond]. apply andb_prop in Hcond. destruct Hcond as [_ Hz].
  change (xltb (Fin 3) (z_score s) = true) in Hz.
  destruct (monthly_z_In m s Hin) as [k Hk].
  pose proof (zscore_bound (map biometrics_total (filter (same_district (mz_row s)) m)) k)
    as Hb.
  rewrite <- Hk, length_map in Hb.
  change (List.length (filter (same_district (mz_row s)) m))
    with (observed_months (m_district (mz_row s)) m) in Hb.
  destruct Hb as [E|[x [E Hx]]]; rewrite E in Hz; [discriminate|].
  simpl in Hz. apply Rltb_iff in Hz.
  assert (Hlt : (8 < observed_months (m_district (mz_row s)) m)%nat).
  { apply INR_lt. replace (INR 8) with 8%R by (simpl; lra).
    assert (9 < x * x)%R by nra. lra. }
  lia.
Qed.

(* ------------------------------------------------------------------ *)
(** ** The per-district endpoints *)

(** X17: the table of first and last monthly totals has one row per
    district name of the monthly table, in strictly ascending order of the
    name.  A district observed in a single month has equal first and last
    totals; if that total is positive the district stays in the growth
    table, with growth rate exactly 0 in exact arithmetic. *)
Theorem trend_has_one_row_per_district :
  forall (monthly : list MonthlyRow),
    StronglySorted (key_lt String.compare) (map t_district (trend_agg monthly)) /\
    (forall d, In d (map t_district (trend_agg monthly)) <->
               exists r, In r monthly /\ m_district r = d) /\
    (forall t, In t (trend_agg monthly) ->
       observed_months (t_district t) monthly = 1%nat ->
       last_val t = first_val t /\
       (0 < first_val t ->
        In t (trend_positive monthly) /\
        growth_rate (with_growth_rate (F:=xreal) t) = Fin 0)).
Proof.
  intros monthly.
  assert (Hkeys : map t_district (trend_agg monthly)
                  = map fst (groupby String.compare m_district monthly)).
  { unfold trend_agg. rewrite map_map. reflexivity. }
  split; [|split].
  - rewrite Hkeys, groupby_keys by typeclasses eauto.
    apply group_keys_sorted. typeclasses eauto.
  - intros d. rewrite Hkeys. apply groupby_key_present. typeclasses eauto.
  - intros t Ht Hone. unfold trend_agg in Ht. apply in_map_iff in Ht.
    destruct Ht as [[d G] [<- Hg]]. cbn [fst snd t_district first_val last_val] in *.
    apply groupby_In in Hg; [|typeclasses eauto]. cbn [fst snd] in Hg.
    destruct Hg as [_ HG]. unfold observed_months in Hone. rewrite <- HG in Hone.
    destruct G as [|r [|r' G']]; try discriminate. cbn [map hd last].
    split; [reflexivity|]. intros Hpos. split.
    + apply trend_positive_In. split; [|exact Hpos].
      unfold trend_agg. apply in_map_iff.
      exists (d, [r]). split; [reflexivity|].
      apply groupby_In; [typeclasses eauto|]. cbn [fst snd].
      split; [|exact HG].
      assert (Hr : In r (filter (fun r0 => is_eq (String.compare (m_district r0) d)) monthly))
        by (rewrite <- HG; now left).
      apply filter_In in Hr. destruct Hr as [Hr Hd].
      exists r. split; [exact Hr|]. now apply (is_eq_true String.compare).
    + rewrite growth_rate_exact by exact Hpos. cbn [first_val last_val].
      unfold sub64. rewrite Z.sub_diag. change (wrap64 0) with 0.
      f_equal. unfold Rdiv. apply Rmult_0_l.
Qed.
